(** * Signal viewer core: statistics, tree normalizer, tree filter, chart rows

    A shallow embedding of [src/utils/dataProcessor.ts] (calculateStats,
    parseMatlabJson, filterBusTree), of the [chartData] projection of
    [src/components/ChartViewer.tsx] and of the [filteredRootBus] caller in the
    application component, followed by the properties the specification
    states about them.  A second part embeds the view around this core (the
    zoom and cursor handlers of [ChartViewer], the chart slots of the
    application component, the sampling of [analyzeSignal]) with properties
    read off the code.

    Conventions of the embedding:
    - a JavaScript number is an IEEE-754 binary64 value, Rocq's primitive
      [float]; its operations are the kernel's;
    - a parsed JSON document is a [json] tree; an object is the list of its own
      properties in enumeration order;
    - [undefined] is [None] where a property read may miss;
    - a thrown exception is the [Throw] constructor of [result];
    - [Record<string, _>] objects used as maps are [gmap string _]. *)

From Stdlib Require Import Floats ZArith Uint63 Ascii.
From stdpp Require Import base option list gmap strings pretty.

(** ** JavaScript values *)

#[local] Unset Elimination Schemes.

Inductive json : Type :=
| JNull
| JBool (b : bool)
| JNum (x : float)
| JStr (s : string)
| JArr (items : list json)
| JObj (props : list (string * json)).

#[local] Set Elimination Schemes.

Inductive exn : Type := TypeError.

Inductive result (A : Type) : Type :=
| Ok (a : A)
| Throw (e : exn).
Arguments Ok {A} a.
Arguments Throw {A} e.

(** [typeof v === 'object']: objects, arrays and [null]. *)
Definition typeof_object (v : option json) : bool :=
  match v with
  | Some JNull | Some (JArr _) | Some (JObj _) => true
  | _ => false
  end.

Definition typeof_number (v : json) : bool :=
  match v with JNum _ => true | _ => false end.

Definition Array_isArray (v : option json) : bool :=
  match v with Some (JArr _) => true | _ => false end.

(** ToBoolean, as used by [a && b], [if (a)] and [a ? b : c]. *)
Definition truthy (v : option json) : bool :=
  match v with
  | None | Some JNull => false
  | Some (JBool b) => b
  | Some (JNum x) => negb (PrimFloat.is_zero x || PrimFloat.is_nan x)
  | Some (JStr s) => negb (String.eqb s "")
  | Some (JArr _) | Some (JObj _) => true
  end.

Fixpoint assoc (key : string) (props : list (string * json)) : option json :=
  match props with
  | [] => None
  | (k, v) :: rest => if String.eqb k key then Some v else assoc key rest
  end.

(** [v.key] for the property names the program reads ([time], [tout], [t],
    [data]) on a value that is not [null]: an object answers with its own
    property, every other value with [undefined] (none of these names is a
    built-in property of arrays, strings, numbers or booleans).  Reading a
    property of [null] throws; the callers below make that case explicit. *)
Definition member (v : json) (key : string) : option json :=
  match v with
  | JObj props => assoc key props
  | _ => None
  end.

(** [arr.length] and [arr[0]] of a value already known to be an array. *)
Definition array_items (v : json) : list json :=
  match v with JArr items => items | _ => [] end.

(** The numbers of an array that passed [isNumericArray] (the cast to
    [number[]] the source relies on). *)
Definition as_numbers (v : json) : list float :=
  omap (fun item => match item with JNum x => Some x | _ => None end)
       (array_items v).

(** [path.join('.')] *)
Fixpoint join (sep : string) (parts : list string) : string :=
  match parts with
  | [] => ""
  | [p] => p
  | p :: rest => p +:+ sep +:+ join sep rest
  end.

(** [index.toString()] *)
Definition toString (n : nat) : string := pretty n.

(** An integer-valued JavaScript number (a length, a loop index). *)
Definition Number_of_nat (n : nat) : float :=
  PrimFloat.of_uint63 (Uint63.of_Z (Z.of_nat n)).

(** ** Data model ([src/types.ts]) *)

Module Stats.
Record t : Type := mk { min : float; max : float; mean : float; stdDev : float }.
End Stats.

Module SignalData.
Record t : Type := mk {
  id : string;
  name : string;
  path : list string;
  data : list float;
  time : option (list float);
  stats : option Stats.t
}.
End SignalData.

Module BusNode.
#[local] Unset Elimination Schemes.
Inductive t : Type := mk {
  name : string;
  path : list string;
  signals : list SignalData.t;
  subBuses : list t
}.
#[local] Set Elimination Schemes.
End BusNode.

Module ParsedDataset.
Record t : Type := mk {
  rootBus : BusNode.t;
  flatSignals : gmap string SignalData.t;
  commonTimeVector : option (list float)
}.
End ParsedDataset.

(** ** Signal statistics ([calculateStats]) *)

(** [isNumericArray]: an array, not empty, all of whose items are numbers. *)
Definition isNumericArray (arr : option json) : bool :=
  match arr with
  | Some (JArr items) =>
      if Nat.eqb (length items) 0 then false else forallb typeof_number items
  | _ => false
  end.

Definition is_neg_zero (x : float) : bool :=
  match PrimFloat.classify x with NZero => true | _ => false end.

Definition is_pos_zero (x : float) : bool :=
  match PrimFloat.classify x with PZero => true | _ => false end.

(** [Math.min(...data)], by the steps of ECMAScript's Math.min: start from
    +Infinity; a NaN argument makes the result NaN; -0 is below +0. *)
Fixpoint Math_min_from (lowest : float) (coerced : list float) : float :=
  match coerced with
  | [] => lowest
  | number :: rest =>
      if PrimFloat.is_nan number then nan
      else if is_neg_zero number && is_pos_zero lowest then Math_min_from number rest
      else if PrimFloat.ltb number lowest then Math_min_from number rest
      else Math_min_from lowest rest
  end.

Definition Math_min (data : list float) : float := Math_min_from infinity data.

(** [Math.max(...data)], symmetric: start from -Infinity; +0 is above -0. *)
Fixpoint Math_max_from (highest : float) (coerced : list float) : float :=
  match coerced with
  | [] => highest
  | number :: rest =>
      if PrimFloat.is_nan number then nan
      else if is_pos_zero number && is_neg_zero highest then Math_max_from number rest
      else if PrimFloat.ltb highest number then Math_max_from number rest
      else Math_max_from highest rest
  end.

Definition Math_max (data : list float) : float := Math_max_from neg_infinity data.

(** [data.reduce((a, b) => a + b, 0)] *)
Definition sum_of (data : list float) : float :=
  fold_left PrimFloat.add data 0%float.

(** [data.reduce((a, b) => a + Math.pow(b - mean, 2), 0)]; the square is the
    correctly rounded product. *)
Definition squares_of (mean : float) (data : list float) : float :=
  fold_left (fun a b => (a + (b - mean) * (b - mean))%float) data 0%float.

(** The branch of [calculateStats] taken by a sequence that is not empty:
    the values it computes.  The source passes the samples as the arguments
    of one call ([Math.min(...data)]), which an engine refuses with a
    RangeError beyond its argument limit; that limit is the engine's and is
    not embedded, so statements about [calculateStats] and about a dataset
    [parseMatlabJson] returns speak of the runs in which these calls are
    accepted. *)
Definition stats_of_samples (data : list float) : Stats.t :=
  let min := Math_min data in
  let max := Math_max data in
  let sum := sum_of data in
  let mean := (sum / Number_of_nat (length data))%float in
  let variance := (squares_of mean data / Number_of_nat (length data))%float in
  Stats.mk min max mean (PrimFloat.sqrt variance).

Definition calculateStats (data : list float) : Stats.t :=
  if Nat.eqb (length data) 0 then Stats.mk 0 0 0 0
  else stats_of_samples data.

(** ** Tree normalizer ([parseMatlabJson]) *)

(** [flatSignals[id] = signal].  Assigning an object to the key [__proto__]
    of an ordinary object replaces its prototype and creates no own
    property; every other key becomes (or overwrites) an own property. *)
Definition flat_set (flat : gmap string SignalData.t) (id : string)
    (signal : SignalData.t) : gmap string SignalData.t :=
  if String.eqb id "__proto__" then flat else <[id := signal]> flat.

Definition push_signal (bus : BusNode.t) (signal : SignalData.t) : BusNode.t :=
  BusNode.mk (BusNode.name bus) (BusNode.path bus)
             (BusNode.signals bus ++ [signal]) (BusNode.subBuses bus).

Definition push_subBus (bus : BusNode.t) (subBus : BusNode.t) : BusNode.t :=
  BusNode.mk (BusNode.name bus) (BusNode.path bus)
             (BusNode.signals bus) (BusNode.subBuses bus ++ [subBus]).

(** [subBus.signals.length > 0 || subBus.subBuses.length > 0] *)
Definition has_content (bus : BusNode.t) : bool :=
  Nat.ltb 0 (length (BusNode.signals bus)) || Nat.ltb 0 (length (BusNode.subBuses bus)).

Definition attach (bus subBus : BusNode.t) : BusNode.t :=
  if has_content subBus then push_subBus bus subBus else bus.

(** [items.forEach((item, index) => ...)] threading the state the callback
    mutates. *)
Fixpoint forEach {A St : Type} (callback : A -> nat -> St -> St)
    (items : list A) (index : nat) (st : St) : St :=
  match items with
  | [] => st
  | item :: rest => forEach callback rest (S index) (callback item index st)
  end.

(** The traversal state: the bus under construction and the shared
    [flatSignals] record. *)
Abbreviation walk := (BusNode.t * gmap string SignalData.t)%type.

(** The body of the loop over [Object.keys(node)], for one [key] and its
    [value]; [recurse] is the enclosing [traverse]. *)
Definition visit (recurse : json -> list string -> string ->
                            gmap string SignalData.t -> walk)
    (commonTimeVector : option (list float))
    (path : list string) (key : string) (value : json) (st : walk) : walk :=
  let newPath := path ++ [key] in
  let id := join "." newPath in
  (* Case 1: numeric array *)
  if isNumericArray (Some value) then
    if (String.eqb key "time" || String.eqb key "tout") && Nat.eqb (length path) 0
    then st
    else
      let signal :=
        SignalData.mk id key newPath (as_numbers value) commonTimeVector
                      (Some (calculateStats (as_numbers value))) in
      (push_signal st.1 signal, flat_set st.2 id signal)
  (* Case 2: timeseries object { data, time } *)
  else if truthy (Some value) && typeof_object (Some value)
          && isNumericArray (member value "data")
          && isNumericArray (member value "time") then
    let signal :=
      SignalData.mk id key newPath
                    (from_option as_numbers [] (member value "data"))
                    (as_numbers <$> member value "time")
                    (Some (calculateStats
                             (from_option as_numbers [] (member value "data")))) in
    (push_signal st.1 signal, flat_set st.2 id signal)
  (* Case 3: nested object *)
  else if typeof_object (Some value) && negb (Array_isArray (Some value)) then
    let sub := recurse value newPath key st.2 in
    (attach st.1 sub.1, sub.2)
  (* Case 4: array whose first item is an object *)
  else if Array_isArray (Some value)
          && Nat.ltb 0 (length (array_items value))
          && typeof_object (head (array_items value)) then
    match value with
    | JArr items =>
        forEach (fun item index st =>
                   let sub := recurse item (newPath ++ [toString index])
                                      (key +:+ "[" +:+ toString index +:+ "]") st.2 in
                   (attach st.1 sub.1, sub.2))
                items 0 st
    | _ => st
    end
  else st.

(** [traverse]: the loop takes each key of [Object.keys(node)] with the
    value [node[key]]; the keys of an object being distinct, that value is
    the one listed with the key (lemma [assoc_entry] below). *)
Fixpoint traverse (commonTimeVector : option (list float)) (node : json)
    (path : list string) (busName : string)
    (flat : gmap string SignalData.t) {struct node} : walk :=
  let currentBus := BusNode.mk busName path [] [] in
  match node with
  | JObj props =>
      fold_left (fun st entry =>
                   visit (traverse commonTimeVector) commonTimeVector path
                         entry.1 entry.2 st)
                props (currentBus, flat)
  | JArr items =>
      (* Object.keys of an array: its indices, as strings *)
      forEach (fun item index st =>
                 visit (traverse commonTimeVector) commonTimeVector path
                       (toString index) item st)
              items 0 (currentBus, flat)
  | _ => (currentBus, flat)
  end.

(** Lines 24-27: the common time vector, read off the root value (which is
    not [null] here). *)
Definition detect_time (jsonData : json) : option (list float) :=
  if truthy (member jsonData "time") && isNumericArray (member jsonData "time")
  then as_numbers <$> member jsonData "time"
  else if truthy (member jsonData "tout") && isNumericArray (member jsonData "tout")
  then as_numbers <$> member jsonData "tout"
  else if truthy (member jsonData "t") && isNumericArray (member jsonData "t")
  then as_numbers <$> member jsonData "t"
  else None.

Definition parseMatlabJson (jsonData : json) (fileName : string)
    : result ParsedDataset.t :=
  match jsonData with
  | JNull =>
      (* [jsonData.time] on line 25 reads a property of null *)
      Throw TypeError
  | _ =>
      let commonTimeVector := detect_time jsonData in
      let walked := traverse commonTimeVector jsonData [] fileName ∅ in
      Ok (ParsedDataset.mk walked.1 walked.2 commonTimeVector)
  end.

(** ** Tree filter ([filterBusTree]) *)

(** Strings are byte strings; case mapping is the ASCII one (the built-in
    also maps letters outside ASCII; the properties below do not depend on
    which letters are mapped). *)
Definition lower_ascii (c : ascii) : ascii :=
  let n := nat_of_ascii c in
  if Nat.leb 65 n && Nat.leb n 90 then ascii_of_nat (n + 32) else c.

Fixpoint toLowerCase (s : string) : string :=
  match s with
  | EmptyString => EmptyString
  | String c rest => String (lower_ascii c) (toLowerCase rest)
  end.

(** [s.includes(sub)] *)
Fixpoint includes (s sub : string) : bool :=
  String.prefix sub s
  || match s with
     | EmptyString => false
     | String _ rest => includes rest sub
     end.

Fixpoint filterBusTree (node : BusNode.t) (term : string) {struct node}
    : option BusNode.t :=
  if String.eqb term "" then Some node
  else
    let lowerTerm := toLowerCase term in
    if includes (toLowerCase (BusNode.name node)) lowerTerm then Some node
    else
      let matchingSignals :=
        List.filter (fun s => includes (toLowerCase (SignalData.name s)) lowerTerm)
                    (BusNode.signals node) in
      let matchingSubBuses :=
        omap (fun sub => filterBusTree sub term) (BusNode.subBuses node) in
      if Nat.ltb 0 (length matchingSignals) || Nat.ltb 0 (length matchingSubBuses)
      then Some (BusNode.mk (BusNode.name node) (BusNode.path node)
                            matchingSignals matchingSubBuses)
      else None.

(** [String.prototype.trim] over the ASCII white space and line
    terminators: TAB, LF, VT, FF, CR and SPACE (the built-in also strips
    the white space outside ASCII). *)
Definition is_space (c : ascii) : bool :=
  let n := nat_of_ascii c in (Nat.leb 9 n && Nat.leb n 13) || Nat.eqb n 32.

Fixpoint trimStart (s : string) : string :=
  match s with
  | EmptyString => EmptyString
  | String c rest => if is_space c then trimStart rest else s
  end.

Fixpoint trimEnd (s : string) : string :=
  match s with
  | EmptyString => EmptyString
  | String c rest =>
      match trimEnd rest with
      | EmptyString => if is_space c then EmptyString else String c EmptyString
      | kept => String c kept
      end
  end.

Definition trim (s : string) : string := trimEnd (trimStart s).

(** The application's [filteredRootBus] memo, the only caller of
    [filterBusTree]. *)
Definition filteredRootBus (dataset : option ParsedDataset.t)
    (searchTerm : string) : option BusNode.t :=
  match dataset with
  | None => None
  | Some ds =>
      if String.eqb (trim searchTerm) "" then Some (ParsedDataset.rootBus ds)
      else filterBusTree (ParsedDataset.rootBus ds) searchTerm
  end.

(** ** Chart data projection ([chartData] in ChartViewer) *)

(** A chart row is a plain object whose property values are numbers or
    [undefined]. *)
Abbreviation Row := (gmap string (option float)).

(** [point[key] = value] for a number or [undefined]: on the key
    [__proto__] such an assignment is ignored. *)
Definition row_set (point : Row) (key : string) (value : option float) : Row :=
  if String.eqb key "__proto__" then point else <[key := value]> point.

Definition maxDisplayPoints : nat := 3000.

(** [Math.ceil(n / d)] for a length [n] and [d = 3000]; the binary64
    quotient of an array length by 3000 never rounds to an integer it does
    not equal, so this is the integer ceiling. *)
Definition ceil_div (n d : nat) : nat := (n + d - 1) / d.

(** One iteration of the loop body (lines 78-91) for index [i]. *)
Definition point_at (signals : list SignalData.t) (baseSignal : SignalData.t)
    (i : nat) : Row :=
  let point : Row :=
    <["time" := match SignalData.time baseSignal with
                | Some time => time !! i
                | None => Some (Number_of_nat i)
                end]> (<["index" := Some (Number_of_nat i)]> ∅) in
  fold_left (fun (point : Row) sig =>
               if Nat.ltb i (length (SignalData.data sig))
               then row_set point (SignalData.id sig) (SignalData.data sig !! i)
               else point)
            signals point.

(** [for (let i = 0; i < dataLength; i += step)]; [fuel] bounds the number
    of iterations. *)
Fixpoint for_loop (fuel : nat) (dataLength step : nat) (body : nat -> Row)
    (i : nat) : list Row :=
  match fuel with
  | 0 => []
  | S fuel' =>
      if Nat.ltb i dataLength
      then body i :: for_loop fuel' dataLength step body (i + step)
      else []
  end.

Definition chartData (signals : list SignalData.t) : list Row :=
  match signals with
  | [] => []
  | baseSignal :: _ =>
      let dataLength := length (SignalData.data baseSignal) in
      let step :=
        if Nat.ltb maxDisplayPoints dataLength
        then ceil_div dataLength maxDisplayPoints else 1 in
      for_loop dataLength dataLength step (point_at signals baseSignal) 0
  end.

(** *** The projection as the specification words it *)

(** The stride: [ceil(n/3000)] above the display cap, [1] otherwise. *)
Definition spec_step (n : nat) : nat :=
  if Nat.ltb 3000 n then ceil_div n 3000 else 1.

(** The retained indices: [0, step, 2*step, ...] below [n], increasing. *)
Definition spec_indices (n step : nat) : list nat :=
  List.filter (fun i => Nat.eqb (i mod step) 0) (seq 0 n).

(** The fields of the row for index [i]: [index], [time], and one field per
    signal whose data reaches index [i]. *)
Definition spec_fields (signals : list SignalData.t) (baseSignal : SignalData.t)
    (i : nat) : list (string * option float) :=
  ("index", Some (Number_of_nat i))
  :: ("time", match SignalData.time baseSignal with
              | Some time => time !! i
              | None => Some (Number_of_nat i)
              end)
  :: omap (fun sig =>
             if Nat.ltb i (length (SignalData.data sig))
             then Some (SignalData.id sig, SignalData.data sig !! i)
             else None)
          signals.

Definition spec_row (signals : list SignalData.t) (baseSignal : SignalData.t)
    (i : nat) : Row :=
  list_to_map (spec_fields signals baseSignal i).

Definition spec_chartData (signals : list SignalData.t) : list Row :=
  match signals with
  | [] => []
  | baseSignal :: _ =>
      let n := length (SignalData.data baseSignal) in
      spec_row signals baseSignal <$> spec_indices n (spec_step n)
  end.

(** ** Induction over the nested trees *)

Section json_induction.
Variable P : json -> Prop.
Hypothesis P_null : P JNull.
Hypothesis P_bool : forall b, P (JBool b).
Hypothesis P_num : forall x, P (JNum x).
Hypothesis P_str : forall s, P (JStr s).
Hypothesis P_arr : forall items, Forall P items -> P (JArr items).
Hypothesis P_obj : forall props, Forall (fun entry => P entry.2) props -> P (JObj props).

Fixpoint json_ind (v : json) : P v :=
  match v with
  | JNull => P_null
  | JBool b => P_bool b
  | JNum x => P_num x
  | JStr s => P_str s
  | JArr items =>
      P_arr items
        (list_ind (Forall P) (Forall_nil_2 P)
                  (fun item _ rest_ok => Forall_cons_2 P item _ (json_ind item) rest_ok)
                  items)
  | JObj props =>
      P_obj props
        (list_ind (Forall (fun entry => P entry.2)) (Forall_nil_2 _)
                  (fun entry _ rest_ok =>
                     Forall_cons_2 (fun entry => P entry.2) entry _
                                   (json_ind entry.2) rest_ok)
                  props)
  end.
End json_induction.

Section BusNode_induction.
Variable P : BusNode.t -> Prop.
Hypothesis P_bus : forall name path signals subBuses,
  Forall P subBuses -> P (BusNode.mk name path signals subBuses).

Fixpoint BusNode_ind (bus : BusNode.t) : P bus :=
  match bus with
  | BusNode.mk name path signals subBuses =>
      P_bus name path signals subBuses
        (list_ind (Forall P) (Forall_nil_2 P)
                  (fun sub _ rest_ok => Forall_cons_2 P sub _ (BusNode_ind sub) rest_ok)
                  subBuses)
  end.
End BusNode_induction.

(** ** Notions the statements and their proofs use *)

(** The first of the given keys whose value is a numeric sequence. *)
Fixpoint first_numeric (props : list (string * json)) (keys : list string)
    : option (list float) :=
  match keys with
  | [] => None
  | key :: rest =>
      if isNumericArray (assoc key props)
      then as_numbers <$> assoc key props
      else first_numeric props rest
  end.

(** The signal the loop body emits for one key, if any (cases 1 and 2). *)
Definition signal_of (commonTimeVector : option (list float))
    (path : list string) (key : string) (value : json) : option SignalData.t :=
  let newPath := path ++ [key] in
  let id := join "." newPath in
  if isNumericArray (Some value) then
    if (String.eqb key "time" || String.eqb key "tout") && Nat.eqb (length path) 0
    then None
    else Some (SignalData.mk id key newPath (as_numbers value) commonTimeVector
                             (Some (calculateStats (as_numbers value))))
  else if truthy (Some value) && typeof_object (Some value)
          && isNumericArray (member value "data")
          && isNumericArray (member value "time") then
    Some (SignalData.mk id key newPath
                        (from_option as_numbers [] (member value "data"))
                        (as_numbers <$> member value "time")
                        (Some (calculateStats
                                 (from_option as_numbers [] (member value "data")))))
  else None.

(** Signals as the normalizer builds them: data never empty, an own or
    common time vector never empty, statistics computed from the data. *)
Record emitted (commonTimeVector : option (list float)) (s : SignalData.t) : Prop := {
  emitted_data : 1 <= length (SignalData.data s);
  emitted_stats : SignalData.stats s = Some (calculateStats (SignalData.data s));
  emitted_time : SignalData.time s = commonTimeVector
                 \/ exists time, SignalData.time s = Some time /\ 1 <= length time
}.

(** Every signal of a bus, at any depth. *)
Fixpoint all_signals (bus : BusNode.t) : list SignalData.t :=
  BusNode.signals bus ++ flat_map all_signals (BusNode.subBuses bus).

(** Every bus attached below a bus, at any depth. *)
Fixpoint attached (bus : BusNode.t) : list BusNode.t :=
  flat_map (fun sub => sub :: attached sub) (BusNode.subBuses bus).

(** Reaching a signal of a dataset: through the tree or through the flat
    record. *)
Definition signal_in (ds : ParsedDataset.t) (s : SignalData.t) : Prop :=
  s ∈ all_signals (ParsedDataset.rootBus ds)
  \/ exists id, ParsedDataset.flatSignals ds !! id = Some s.

(** The invariant of the traversal on the tree side. *)
Definition normal (commonTimeVector : option (list float)) (bus : BusNode.t) : Prop :=
  Forall (emitted commonTimeVector) (all_signals bus)
  /\ Forall (fun sub => has_content sub = true) (attached bus).

Definition flat_emitted (commonTimeVector : option (list float))
    (flat : gmap string SignalData.t) : Prop :=
  map_Forall (fun _ s => emitted commonTimeVector s) flat.

Definition walk_ok (commonTimeVector : option (list float)) (st : walk) : Prop :=
  normal commonTimeVector st.1 /\ flat_emitted commonTimeVector st.2.

(** What the traversal of one value promises, whatever path, name and
    flat record it starts from. *)
Definition traverse_ok (ctv : option (list float)) (value : json) : Prop :=
  forall path busName flat,
    flat_emitted ctv flat -> walk_ok ctv (traverse ctv value path busName flat).

(** Every name a search can hit in a tree: bus names and signal names. *)
Fixpoint names (bus : BusNode.t) : list string :=
  BusNode.name bus
  :: (SignalData.name <$> BusNode.signals bus)
  ++ flat_map names (BusNode.subBuses bus).

(** The filter's test on one name. *)
Definition mentions (term name : string) : bool :=
  includes (toLowerCase name) (toLowerCase term).

Definition on_stride (step i : nat) : bool := Nat.eqb (i mod step) 0.

Definition not_nan (x : float) : Prop := PrimFloat.is_nan x = false.

(** ** Concrete inputs used by the examples below *)

Definition jnums (xs : list float) : json := JArr (JNum <$> xs).

Definition leaf (name : string) : SignalData.t :=
  SignalData.mk name name [name] [1%float] None None.

Definition engine_bus : BusNode.t :=
  BusNode.mk "Engine" ["engine"] [leaf "rpm"; leaf "temperature"] [].

Definition chassis_bus : BusNode.t :=
  BusNode.mk "chassis" ["chassis"] [leaf "suspension_fl"; leaf "damper"] [].

Definition vehicle_bus : BusNode.t :=
  BusNode.mk "vehicle" [] [leaf "speed"] [engine_bus; chassis_bus].

Definition demo_json : json :=
  JObj [("time", jnums [0; 1; 2]%float);
        ("a", jnums [1; 2; 3]%float);
        ("b", JObj [("c", jnums [4; 5; 6]%float)]);
        ("t", jnums [7; 8]%float)].

Definition demo_dataset : ParsedDataset.t :=
  let commonTimeVector := detect_time demo_json in
  let walked := traverse commonTimeVector demo_json [] "demo" ∅ in
  ParsedDataset.mk walked.1 walked.2 commonTimeVector.

Definition mismatch_json : json :=
  JObj [("time", jnums [0; 1; 2]%float); ("a", jnums [1; 2]%float)].

(** Three samples equal to the binary64 value nearest to one tenth. *)
Definition tenths : list float :=
  [0x1.999999999999ap-4; 0x1.999999999999ap-4; 0x1.999999999999ap-4]%float.

(** The example of the specification's section 8. *)
Definition spec_example : json :=
  JObj [("time", jnums [0; 1; 2]%float);
        ("a", jnums [1; 2; 3]%float);
        ("b", JObj [("c", jnums [4; 5; 6]%float)])].

(** * The view around the core: zoom, cursors, slots, sampling *)

(** ** Zoom and cursors ([ChartViewer]) *)

Module ZoomRange.
Record t : Type := mk { startIndex : Z; endIndex : Z }.
End ZoomRange.

(** The component state the zoom handlers touch. *)
Module ChartState.
Record t : Type := mk {
  zoomRange : option ZoomRange.t;
  refAreaLeft : option float;
  refAreaRight : option float
}.
End ChartState.

(** [d.time] of a row, as a comparison operand: a number, or NaN for
    [undefined]. *)
Definition row_time (d : Row) : float :=
  match d !! "time" with
  | Some (Some time) => time
  | _ => nan
  end.

(** [arr.findIndex(p)]: the first index whose element passes, or -1. *)
Fixpoint findIndex_from {A : Type} (p : A -> bool) (arr : list A) (i : Z) : Z :=
  match arr with
  | [] => (-1)%Z
  | x :: rest => if p x then i else findIndex_from p rest (i + 1)%Z
  end.

Definition findIndex {A : Type} (p : A -> bool) (arr : list A) : Z :=
  findIndex_from p arr 0%Z.

Definition zoom (chartData : list Row) (st : ChartState.t) : ChartState.t :=
  match ChartState.refAreaLeft st, ChartState.refAreaRight st with
  | Some refAreaLeft, Some refAreaRight =>
      if PrimFloat.eqb refAreaLeft refAreaRight
      then ChartState.mk (ChartState.zoomRange st) None None
      else
        let minTime := Math_min [refAreaLeft; refAreaRight] in
        let maxTime := Math_max [refAreaLeft; refAreaRight] in
        (* d.time >= minTime, d.time > maxTime *)
        let startIndex := findIndex (fun d => PrimFloat.leb minTime (row_time d)) chartData in
        let endIndex := findIndex (fun d => PrimFloat.ltb maxTime (row_time d)) chartData in
        let startIndex := if Z.eqb startIndex (-1) then 0%Z else startIndex in
        let endIndex :=
          if Z.eqb endIndex (-1) then (Z.of_nat (length chartData) - 1)%Z
          else Z.max 0 (endIndex - 1) in
        if Z.ltb startIndex endIndex
        then ChartState.mk (Some (ZoomRange.mk startIndex endIndex)) None None
        else ChartState.mk (ChartState.zoomRange st) None None
  | _, _ => ChartState.mk (ChartState.zoomRange st) None None
  end.

Definition zoomOut (chartData : list Row) (st : ChartState.t) : ChartState.t :=
  if Nat.ltb 0 (length chartData)
  then ChartState.mk (Some (ZoomRange.mk 0 (Z.of_nat (length chartData) - 1))) None None
  else ChartState.mk None None None.

Definition isZoomed (chartData : list Row) (st : ChartState.t) : bool :=
  match ChartState.zoomRange st with
  | None => false
  | Some zoomRange =>
      if Nat.eqb (length chartData) 0 then false
      else Z.ltb 0 (ZoomRange.startIndex zoomRange)
           || Z.ltb (ZoomRange.endIndex zoomRange) (Z.of_nat (length chartData) - 1)
  end.

(** A zoom window that lies inside the rows, first index before last. *)
Definition window_ok (chartData : list Row) (r : ZoomRange.t) : Prop :=
  (0 <= ZoomRange.startIndex r < ZoomRange.endIndex r)%Z
  /\ (ZoomRange.endIndex r <= Z.of_nat (length chartData) - 1)%Z.

(** The two measurement cursors, each a time or [null]. *)
Abbreviation Cursors := (option float * option float)%type.

(** [handleChartClick], with the parent's [onCursorChange] storing the pair
    it is given.  [data] is the click event: absent when falsy, else the
    number [Number(data.activeLabel)]. *)
Definition handleChartClick (isMeasureMode : bool) (data : option float)
    (cursors : Cursors) : Cursors :=
  if negb isMeasureMode then cursors
  else match data with
       | None => cursors
       | Some time =>
           if PrimFloat.is_nan time then cursors
           else match cursors with
                | (None, _) => (Some time, None)
                | (Some cursor1, None) => (Some cursor1, Some time)
                | (Some _, Some _) => (Some time, None)
                end
       end.

Definition cursor_ok (c : option float) : Prop :=
  match c with Some time => PrimFloat.is_nan time = false | None => True end.

Definition cursors_ok (cursors : Cursors) : Prop :=
  cursor_ok cursors.1 /\ cursor_ok cursors.2
  /\ (cursors.2 <> None -> cursors.1 <> None).

(** ** Chart slots (the application component) *)

(** [chartSlots]: an array whose elements are arrays of signals; [None] is
    an element that reads as [undefined] (a hole left by a write past the
    end). *)
Abbreviation Slots := (list (option (list SignalData.t))).

Definition MAX_SLOTS : nat := 5.

(** [Array(MAX_SLOTS).fill([])] *)
Definition empty_slots : Slots := replicate MAX_SLOTS (Some []).

(** [arr[index] = v] on a copy of [arr]: in range it replaces the element,
    past the end it extends the array, leaving holes in between. *)
Definition array_set {A : Type} (arr : list (option A)) (index : nat) (v : A)
    : list (option A) :=
  if Nat.ltb index (length arr) then <[index := Some v]> arr
  else arr ++ replicate (index - length arr) None ++ [Some v].

(** [arr[index]] *)
Definition array_get {A : Type} (arr : list (option A)) (index : nat) : option A :=
  mjoin (arr !! index).

(** [slot.find(s => s.id === id)] as a test *)
Definition has_id (id : string) (slot : list SignalData.t) : bool :=
  existsb (fun s => String.eqb (SignalData.id s) id) slot.

(** The names a flat record can inherit: those of [Object.prototype], and
    the fields of a signal, which becomes the record's prototype when it is
    filed under [__proto__]. *)
Definition inherited_names : list string :=
  ["__proto__"; "constructor"; "hasOwnProperty"; "isPrototypeOf";
   "propertyIsEnumerable"; "toLocaleString"; "toString"; "valueOf";
   "__defineGetter__"; "__defineSetter__"; "__lookupGetter__";
   "__lookupSetter__"; "id"; "name"; "path"; "data"; "time"; "stats"].

(** [handleDrop], from the dropped [signalId] on.  [dataset?.flatSignals[id]]
    is read as the own property of the flat record: for an id among
    [inherited_names] the source can find an inherited value that is no
    signal, and the statements about drops leave those ids out. *)
Definition handleDrop (dataset : option ParsedDataset.t) (chartSlots : Slots)
    (index : nat) (signalId : string) : result Slots :=
  match (if String.eqb signalId "" then None
         else dataset ≫= fun ds => ParsedDataset.flatSignals ds !! signalId) with
  | None => Ok chartSlots
  | Some signalToAdd =>
      match array_get chartSlots index with
      | None => Throw TypeError
      | Some currentSlotSignals =>
          if negb (has_id (SignalData.id signalToAdd) currentSlotSignals)
          then Ok (array_set chartSlots index (currentSlotSignals ++ [signalToAdd]))
          else Ok chartSlots
      end
  end.

Definition removeSignal (chartSlots : Slots) (slotIndex : nat) (signalId : string)
    : result Slots :=
  match array_get chartSlots slotIndex with
  | None => Throw TypeError
  | Some slot =>
      Ok (array_set chartSlots slotIndex
            (List.filter (fun s => negb (String.eqb (SignalData.id s) signalId)) slot))
  end.

Definition clearSlot (chartSlots : Slots) (slotIndex : nat) : Slots :=
  array_set chartSlots slotIndex [].

(** [chartSlots.findIndex(s => s.length === 0)]; the test throws on an
    element that is [undefined]. *)
Fixpoint findIndex_empty (slots : Slots) (i : nat) : result (option nat) :=
  match slots with
  | [] => Ok None
  | None :: _ => Throw TypeError
  | Some s :: rest =>
      if Nat.eqb (length s) 0 then Ok (Some i) else findIndex_empty rest (S i)
  end.

Definition handleSelectSignal (chartSlots : Slots) (signal : SignalData.t)
    : result Slots :=
  match findIndex_empty chartSlots 0 with
  | Throw e => Throw e
  | Ok (Some emptyIndex) => Ok (array_set chartSlots emptyIndex [signal])
  | Ok None =>
      match array_get chartSlots 0 with
      | None => Throw TypeError
      | Some slot =>
          if negb (has_id (SignalData.id signal) slot)
          then Ok (array_set chartSlots 0 (slot ++ [signal]))
          else Ok chartSlots
      end
  end.

(** The events that change the slots: a drop on a slot, the removal of one
    signal, the clearing of a slot, a click on a signal of the tree, and
    the loading of a dataset (or a logout), which empties every slot. *)
Inductive slot_event : Type :=
| OnDrop (dataset : option ParsedDataset.t) (index : nat) (signalId : string)
| OnRemove (slotIndex : nat) (signalId : string)
| OnClear (slotIndex : nat)
| OnSelect (signal : SignalData.t)
| OnLoad.

Definition slot_step (chartSlots : Slots) (ev : slot_event) : result Slots :=
  match ev with
  | OnDrop dataset index signalId => handleDrop dataset chartSlots index signalId
  | OnRemove slotIndex signalId => removeSignal chartSlots slotIndex signalId
  | OnClear slotIndex => Ok (clearSlot chartSlots slotIndex)
  | OnSelect signal => handleSelectSignal chartSlots signal
  | OnLoad => Ok empty_slots
  end.

Fixpoint slot_run (chartSlots : Slots) (evs : list slot_event) : result Slots :=
  match evs with
  | [] => Ok chartSlots
  | ev :: rest =>
      match slot_step chartSlots ev with
      | Ok next => slot_run next rest
      | Throw e => Throw e
      end
  end.

(** The slot an event addresses is one of the [MAX_SLOTS] the view shows,
    and a dropped id names no inherited property. *)
Definition event_in_range (ev : slot_event) : Prop :=
  match ev with
  | OnDrop _ index signalId => index < MAX_SLOTS /\ signalId ∉ inherited_names
  | OnRemove slotIndex _ | OnClear slotIndex => slotIndex < MAX_SLOTS
  | OnSelect _ | OnLoad => True
  end.

(** Every slot is an array, and no two of its signals share an id. *)
Definition slots_ok (chartSlots : Slots) : Prop :=
  length chartSlots = MAX_SLOTS
  /\ Forall (fun slot => exists signals,
               slot = Some signals /\ NoDup (SignalData.id <$> signals))
            chartSlots.

(** ** Sampling for the analysis prompt ([analyzeSignal]) *)

(** [arr.filter((_, i) => p(i))] *)
Fixpoint filter_by_index {A : Type} (p : nat -> bool) (arr : list A) (i : nat)
    : list A :=
  match arr with
  | [] => []
  | x :: rest =>
      if p i then x :: filter_by_index p rest (S i) else filter_by_index p rest (S i)
  end.

(** [i % step === 0]; the remainder by zero is NaN, which is not 0. *)
Definition remainder_is_zero (i step : nat) : bool :=
  if Nat.eqb step 0 then false else Nat.eqb (i mod step) 0.

(** Lines 20-23 of [analyzeSignal]. *)
Definition sampledData (data : list float) : list float :=
  let maxPoints := 150 in
  let step := ceil_div (length data) maxPoints in
  filter_by_index (fun i => remainder_is_zero i step) data 0.

(** ** Further notions the statements use *)

(** The signals a search for [term] is meant to show, in tree order: all
    signals of a bus whose name contains the term, and elsewhere the
    signals whose own name contains it. *)
Fixpoint matching_signals (term : string) (bus : BusNode.t) : list SignalData.t :=
  if mentions term (BusNode.name bus) then all_signals bus
  else List.filter (fun s => mentions term (SignalData.name s)) (BusNode.signals bus)
       ++ flat_map (matching_signals term) (BusNode.subBuses bus).

(** Everything in the flat record that the run added is a signal of the
    bus built, filed under its id. *)
Definition flat_from_tree (path : list string) (flat0 : gmap string SignalData.t)
    (st : walk) : Prop :=
  forall k s, st.2 !! k = Some s ->
    flat0 !! k = Some s \/ (s ∈ all_signals st.1 /\ SignalData.id s = k).

(** Every signal of the bus built whose id is not [__proto__] has its id
    bound in the flat record, and the run unbinds nothing. *)
Definition tree_in_flat (path : list string) (flat0 : gmap string SignalData.t)
    (st : walk) : Prop :=
  (forall k, is_Some (flat0 !! k) -> is_Some (st.2 !! k))
  /\ (forall s, s ∈ all_signals st.1 -> SignalData.id s <> "__proto__" ->
        is_Some (st.2 !! SignalData.id s)).

(** A bus whose signals and sub-buses are filed under its own path. *)
Definition bus_shaped (bus : BusNode.t) : Prop :=
  Forall (fun s => SignalData.path s = BusNode.path bus ++ [SignalData.name s]
                   /\ SignalData.id s = join "." (SignalData.path s))
         (BusNode.signals bus)
  /\ Forall (fun sub => exists rest, rest <> []
                        /\ BusNode.path sub = BusNode.path bus ++ rest)
            (BusNode.subBuses bus).

Definition tree_shaped (path : list string) (flat0 : gmap string SignalData.t)
    (st : walk) : Prop :=
  BusNode.path st.1 = path /\ Forall bus_shaped (st.1 :: attached st.1).

Definition is_NaN (x : float) : Prop := PrimFloat.is_nan x = true.

(** Every value below a node: the values of its keys (the items of an
    array), and the values below those. *)
Fixpoint values_in (node : json) : list json :=
  match node with
  | JObj props => flat_map (fun entry => entry.2 :: values_in entry.2) props
  | JArr items => flat_map (fun item => item :: values_in item) items
  | _ => []
  end.

(** The two ways a signal takes its sequences from the value of a key: a
    numeric sequence is the data and the common time vector is the time;
    or the value's own [data] and [time] sequences are. *)
Definition copied_from (commonTimeVector : option (list float)) (value : json)
    (s : SignalData.t) : Prop :=
  (isNumericArray (Some value) = true
   /\ SignalData.data s = as_numbers value
   /\ SignalData.time s = commonTimeVector)
  \/ (isNumericArray (Some value) = false
      /\ exists d t,
           member value "data" = Some d /\ member value "time" = Some t
           /\ isNumericArray (Some d) = true /\ isNumericArray (Some t) = true
           /\ SignalData.data s = as_numbers d
           /\ SignalData.time s = Some (as_numbers t)).

(** The input gives the two sequences read from [value] the same length:
    a numeric sequence is as long as the common time vector, if there is
    one; the [data] and [time] of any other value are equally long. *)
Definition aligned (commonTimeVector : option (list float)) (value : json) : Prop :=
  if isNumericArray (Some value)
  then forall time, commonTimeVector = Some time ->
                    length time = length (as_numbers value)
  else forall d t, member value "data" = Some d -> member value "time" = Some t ->
                   length (as_numbers t) = length (as_numbers d).

(** Every signal of the bus a run of [traverse] on [node] builds takes its
    sequences from a value below [node]. *)
Definition traverse_copies (ctv : option (list float)) (node : json) : Prop :=
  forall path busName flat s,
    s ∈ all_signals (traverse ctv node path busName flat).1 ->
    exists value, value ∈ values_in node /\ copied_from ctv value s.

(** A relation between the path and flat record a run of [traverse] starts
    from and the state it reaches, holding of every run on [value]. *)
Definition traverse_keeps (ctv : option (list float))
    (Q : list string -> gmap string SignalData.t -> walk -> Prop)
    (value : json) : Prop :=
  forall path busName flat, Q path flat (traverse ctv value path busName flat).

(** Slots with two signals in the first one. *)
Definition demo_slots : Slots :=
  [Some [leaf "rpm"; leaf "speed"]; Some []; Some []; Some []; Some []].

(** * Properties *)

(** ** Tree filter *)

Lemma filterBusTree_eq (node : BusNode.t) (term : string) :
  filterBusTree node term =
  if String.eqb term "" then Some node
  else if includes (toLowerCase (BusNode.name node)) (toLowerCase term)
  then Some node
  else
    let matchingSignals :=
      List.filter (fun s => includes (toLowerCase (SignalData.name s))
                                     (toLowerCase term))
                  (BusNode.signals node) in
    let matchingSubBuses :=
      omap (fun sub => filterBusTree sub term) (BusNode.subBuses node) in
    if Nat.ltb 0 (length matchingSignals) || Nat.ltb 0 (length matchingSubBuses)
    then Some (BusNode.mk (BusNode.name node) (BusNode.path node)
                          matchingSignals matchingSubBuses)
    else None.
Proof. destruct node; reflexivity. Qed.

Lemma filter_bool_twice {A : Type} (keep : A -> bool) (l : list A) :
  List.filter keep (List.filter keep l) = List.filter keep l.
Proof.
  induction l as [|x l IH]; simpl; [reflexivity|].
  destruct (keep x) eqn:Hx; simpl; [rewrite Hx, IH|]; auto.
Qed.

Lemma omap_fixed {A : Type} (f : A -> option A) (l : list A) :
  Forall (fun x => forall y, f x = Some y -> f y = Some y) l ->
  omap f (omap f l) = omap f l.
Proof.
  induction 1 as [|x l Hx _ IH]; [reflexivity|].
  cbn [omap list_omap]. destruct (f x) as [y|] eqn:Hfx; [|exact IH].
  cbn [omap list_omap]. rewrite (Hx y eq_refl), IH. reflexivity.
Qed.

(** C5. When the node's own name contains the term case-insensitively,
    [filterBusTree] returns the very node it was given, whole subtree
    included; this holds for every term, so in particular for every
    non-blank one. *)
Theorem filterBusTree_name_match (node : BusNode.t) (term : string) :
  includes (toLowerCase (BusNode.name node)) (toLowerCase term) = true ->
  filterBusTree node term = Some node.
Proof.
  intros Hname. rewrite filterBusTree_eq, Hname.
  destruct (String.eqb term ""); reflexivity.
Qed.

Lemma filterBusTree_name_match_witness :
  includes (toLowerCase (BusNode.name engine_bus)) (toLowerCase "ENG") = true
  /\ filterBusTree engine_bus "ENG" = Some engine_bus.
Proof.
  split; [reflexivity|].
  apply (filterBusTree_name_match engine_bus "ENG"). reflexivity.
Defined.

(** C6. Filtering is idempotent: whenever [filterBusTree tree term] is a
    node, filtering that node again with the same term returns it
    unchanged. *)
Theorem filterBusTree_idempotent (tree : BusNode.t) (term : string)
    (res : BusNode.t) :
  filterBusTree tree term = Some res ->
  filterBusTree res term = Some res.
Proof.
  revert res. induction tree as [name path signals subBuses IH] using BusNode_ind.
  intros res. rewrite filterBusTree_eq. simpl.
  destruct (String.eqb term "") eqn:Hterm.
  { intros [= <-]. rewrite filterBusTree_eq, Hterm. reflexivity. }
  destruct (includes (toLowerCase name) (toLowerCase term)) eqn:Hname.
  { intros [= <-]. rewrite filterBusTree_eq, Hterm. simpl. rewrite Hname.
    reflexivity. }
  destruct (_ || _) eqn:Hcontent; [|discriminate].
  intros [= <-]. rewrite filterBusTree_eq, Hterm. simpl. rewrite Hname.
  rewrite filter_bool_twice, (omap_fixed _ _ IH), Hcontent. reflexivity.
Qed.

Lemma filterBusTree_idempotent_witness :
  filterBusTree vehicle_bus "RPM"
  = Some (BusNode.mk "vehicle" []
            [] [BusNode.mk "Engine" ["engine"] [leaf "rpm"] []])
  /\ filterBusTree (BusNode.mk "vehicle" []
            [] [BusNode.mk "Engine" ["engine"] [leaf "rpm"] []]) "RPM"
     = Some (BusNode.mk "vehicle" []
            [] [BusNode.mk "Engine" ["engine"] [leaf "rpm"] []]).
Proof.
  split; [reflexivity|].
  apply (filterBusTree_idempotent vehicle_bus "RPM"). reflexivity.
Defined.

Lemma filter_none_all_false {A : Type} (keep : A -> bool) (l : list A) :
  List.filter keep l = [] <-> Forall (fun x => keep x = false) l.
Proof.
  induction l as [|x l IH]; simpl.
  - split; auto.
  - destruct (keep x) eqn:Hx.
    + split; [discriminate|]. intros H. apply Forall_cons in H as [H _]. congruence.
    + rewrite IH. split; [intros H; constructor; auto|].
      intros H. apply Forall_cons in H as [_ H]. exact H.
Qed.

Lemma omap_none_all_none {A B : Type} (f : A -> option B) (l : list A) :
  omap f l = [] <-> Forall (fun x => f x = None) l.
Proof.
  induction l as [|x l IH]; cbn [omap list_omap].
  - split; auto.
  - destruct (f x) eqn:Hx.
    + split; [discriminate|]. intros H. apply Forall_cons in H as [H _]. congruence.
    + rewrite IH. split; [intros H; constructor; auto|].
      intros H. apply Forall_cons in H as [_ H]. exact H.
Qed.

Lemma length_pos_nil {A : Type} (l : list A) :
  Nat.ltb 0 (length l) = false <-> l = [].
Proof. destruct l; simpl; split; intros; try discriminate; auto. Qed.

(** X4. For a term that is not empty, the filter answers null exactly when
    no bus name and no signal name anywhere in the tree contains the
    term. *)
Theorem filterBusTree_no_match (bus : BusNode.t) (term : string) :
  term <> "" ->
  filterBusTree bus term = None
  <-> Forall (fun name => mentions term name = false) (names bus).
Proof.
  intros Hterm. apply String.eqb_neq in Hterm.
  induction bus as [name path signals subBuses IH] using BusNode_ind.
  rewrite filterBusTree_eq, Hterm.
  cbn [BusNode.name BusNode.signals BusNode.subBuses names].
  rewrite Forall_cons, Forall_app, Forall_fmap, Forall_flat_map.
  fold (mentions term name).
  destruct (mentions term name) eqn:Hname.
  { split; [discriminate|]. intros [H _]. discriminate. }
  cbv zeta.
  destruct (_ || _) eqn:Hcontent.
  - split; [discriminate|]. intros (_ & Hsig & Hsub). exfalso.
    apply orb_prop in Hcontent as [H|H].
    + apply filter_none_all_false in Hsig. unfold mentions in Hsig.
      rewrite Hsig in H. discriminate.
    + assert (Hnone : omap (fun sub => filterBusTree sub term) subBuses = []).
      { apply omap_none_all_none. rewrite Forall_forall in *. intros sub Hin.
        apply (IH sub Hin). apply (Hsub sub Hin). }
      rewrite Hnone in H. discriminate.
  - apply orb_false_elim in Hcontent as [Hsig Hsub].
    apply length_pos_nil in Hsig, Hsub.
    split; [intros _|reflexivity]. split; [reflexivity|]. split.
    + apply filter_none_all_false in Hsig. exact Hsig.
    + apply omap_none_all_none in Hsub. rewrite Forall_forall in *.
      intros sub Hin. apply (IH sub Hin). apply (Hsub sub Hin).
Qed.

Lemma filterBusTree_no_match_witness :
  "brake" <> ""
  /\ Forall (fun name => mentions "brake" name = false) (names vehicle_bus)
  /\ filterBusTree vehicle_bus "brake" = None.
Proof.
  assert (Hnames : Forall (fun name => mentions "brake" name = false)
                          (names vehicle_bus)).
  { repeat constructor. }
  split; [discriminate|]. split; [exact Hnames|].
  apply (filterBusTree_no_match vehicle_bus "brake"); [discriminate|exact Hnames].
Defined.

(** C7, as the claim states it, fails: a term made of one space is not
    empty, so the guard [!term] does not fire, and a bus whose names hold
    no space is filtered away. *)
Lemma filterBusTree_blank_term_not_identity :
  trim " " = "" /\ filterBusTree vehicle_bus " " = None.
Proof. split; reflexivity. Qed.

(** C7, amended. [filterBusTree] is the identity on the empty term, the
    only term its guard [!term] recognises. *)
Theorem filterBusTree_empty_term (node : BusNode.t) :
  filterBusTree node "" = Some node.
Proof. rewrite filterBusTree_eq. reflexivity. Qed.

(** A blank term that is not empty never reaches the filter: the view's
    [filteredRootBus] tests [searchTerm.trim()] first and hands back the
    root bus. *)
Lemma filteredRootBus_blank_term (ds : ParsedDataset.t) (term : string) :
  trim term = "" ->
  filteredRootBus (Some ds) term = Some (ParsedDataset.rootBus ds).
Proof. intros Hblank. unfold filteredRootBus. rewrite Hblank. reflexivity. Qed.

Lemma filteredRootBus_blank_term_witness :
  trim "  " = ""
  /\ filteredRootBus (Some (ParsedDataset.mk vehicle_bus ∅ None)) "  "
     = Some vehicle_bus.
Proof.
  split; [reflexivity|].
  apply (filteredRootBus_blank_term (ParsedDataset.mk vehicle_bus ∅ None) "  ").
  reflexivity.
Defined.

(** ** Chart data projection *)

Lemma on_stride_gap (step i k : nat) :
  i mod step = 0 -> 0 < k < step -> on_stride step (i + k) = false.
Proof.
  intros Hi Hk. unfold on_stride. apply Nat.eqb_neq.
  rewrite Nat.Div0.add_mod, Hi by lia. simpl.
  rewrite Nat.Div0.mod_mod by lia. rewrite Nat.mod_small; lia.
Qed.

(** Between a retained index and the next one nothing is retained. *)
Lemma filter_skip_gap (step i : nat) :
  i mod step = 0 ->
  forall gap k len, step = k + gap -> 0 < k ->
    List.filter (on_stride step) (seq (i + k) len)
    = List.filter (on_stride step) (seq (i + step) (len - gap)).
Proof.
  intros Hi gap. induction gap as [|gap IH]; intros k len Hstep Hk.
  - replace k with step by lia. rewrite Nat.sub_0_r. reflexivity.
  - destruct len as [|len]; [reflexivity|].
    simpl seq. simpl List.filter.
    rewrite on_stride_gap by (auto; lia).
    replace (S (i + k)) with (i + S k) by lia.
    rewrite (IH (S k) len) by lia. reflexivity.
Qed.

(** The loop visits exactly the retained indices, in order, and stops by
    its own test: any fuel that covers the remaining distance gives the
    same rows. *)
Lemma for_loop_indices (body : nat -> Row) (n step : nat) :
  0 < step ->
  forall fuel i, i mod step = 0 -> n - i <= fuel ->
    for_loop fuel n step body i
    = body <$> List.filter (on_stride step) (seq i (n - i)).
Proof.
  intros Hstep fuel. induction fuel as [|fuel IH]; intros i Hi Hfuel.
  - replace (n - i) with 0 by lia. reflexivity.
  - simpl. destruct (Nat.ltb_spec i n) as [Hlt|Hge].
    + replace (n - i) with (S (n - S i)) by lia. simpl seq. simpl List.filter.
      unfold on_stride at 1. rewrite Hi. simpl. f_equal.
      rewrite IH.
      * f_equal. replace (S i) with (i + 1) by lia.
        rewrite (filter_skip_gap step i Hi (step - 1) 1) by lia.
        f_equal. f_equal. lia.
      * rewrite Nat.Div0.add_mod, Hi, Nat.Div0.mod_same by lia.
        simpl. apply Nat.Div0.mod_0_l.
      * lia.
    + replace (n - i) with 0 by lia. reflexivity.
Qed.

Lemma spec_step_positive (n : nat) : 0 < spec_step n.
Proof.
  unfold spec_step, ceil_div. destruct (Nat.ltb_spec 3000 n); [|lia].
  apply Nat.div_str_pos. lia.
Qed.

Lemma spec_fields_keys (signals : list SignalData.t) (i : nat) (key : string) :
  key ∉ SignalData.id <$> signals ->
  key ∉ (omap (fun sig =>
                 if Nat.ltb i (length (SignalData.data sig))
                 then Some (SignalData.id sig, SignalData.data sig !! i)
                 else None) signals).*1.
Proof.
  induction signals as [|sig signals IH]; simpl; [auto|].
  rewrite not_elem_of_cons. intros [Hne Hrest].
  destruct (Nat.ltb _ _); simpl; [|auto].
  rewrite not_elem_of_cons. auto.
Qed.

(** The assignments of the loop body build the map of the fields, provided
    no key is written twice and none is ignored. *)
Lemma fold_fields (signals : list SignalData.t) (i : nat) :
  NoDup (SignalData.id <$> signals) ->
  Forall (fun sig => SignalData.id sig <> "__proto__") signals ->
  forall point : Row,
    fold_left (fun (point : Row) sig =>
                 if Nat.ltb i (length (SignalData.data sig))
                 then row_set point (SignalData.id sig) (SignalData.data sig !! i)
                 else point) signals point
    = list_to_map (omap (fun sig =>
                 if Nat.ltb i (length (SignalData.data sig))
                 then Some (SignalData.id sig, SignalData.data sig !! i)
                 else None) signals) ∪ point.
Proof.
  induction signals as [|sig signals IH]; intros Hnodup Hproto point.
  - simpl. rewrite (left_id_L ∅ (∪)). reflexivity.
  - simpl in Hnodup. apply NoDup_cons in Hnodup as [Hfresh Hnodup].
    apply Forall_cons in Hproto as [Hsig Hproto].
    simpl. rewrite IH by assumption.
    destruct (Nat.ltb i (length (SignalData.data sig))); [|reflexivity].
    unfold row_set. apply String.eqb_neq in Hsig. rewrite Hsig.
    simpl. rewrite <- insert_union_l. rewrite insert_union_r; [reflexivity|].
    apply not_elem_of_list_to_map_1, spec_fields_keys, Hfresh.
Qed.

Lemma point_at_spec_row (signals : list SignalData.t) (baseSignal : SignalData.t)
    (i : nat) :
  NoDup (SignalData.id <$> signals) ->
  Forall (fun sig => SignalData.id sig ∉ ["index"; "time"; "__proto__"]) signals ->
  point_at signals baseSignal i = spec_row signals baseSignal i.
Proof.
  intros Hnodup Hreserved. unfold point_at, spec_row, spec_fields.
  assert (Hproto : Forall (fun sig => SignalData.id sig <> "__proto__") signals).
  { eapply Forall_impl; [exact Hreserved|]. simpl. intros sig Hsig Heq.
    apply Hsig. rewrite Heq. rewrite !elem_of_cons. tauto. }
  assert (Hkey : forall key, key ∈ ["index"; "time"] ->
                             key ∉ SignalData.id <$> signals).
  { intros key Hkey Hin. apply list_elem_of_fmap in Hin as (sig & -> & Hin).
    rewrite Forall_forall in Hreserved. apply (Hreserved sig Hin).
    rewrite !elem_of_cons in Hkey. rewrite !elem_of_cons.
    destruct Hkey as [Hkey|[Hkey|Hkey]]; auto. }
  rewrite fold_fields by assumption.
  set (fields := omap _ signals).
  assert (Hnone : forall key, key ∈ ["index"; "time"] ->
                              (list_to_map fields : Row) !! key = None).
  { intros key Hin. apply not_elem_of_list_to_map_1, spec_fields_keys, Hkey, Hin. }
  cbn [list_to_map foldr uncurry fst snd].
  rewrite <- !insert_union_r by (apply Hnone; repeat constructor).
  rewrite (right_id_L ∅ (∪)).
  apply insert_insert_ne. discriminate.
Qed.

(** The reference row read field by field: [index] and [time] as stated,
    and for each signal its own field, present exactly when the index is
    below the signal's data length. *)
Lemma spec_row_fields (signals : list SignalData.t) (baseSignal : SignalData.t)
    (i : nat) :
  NoDup (SignalData.id <$> signals) ->
  Forall (fun sig => SignalData.id sig ∉ ["index"; "time"; "__proto__"]) signals ->
  spec_row signals baseSignal i !! "index" = Some (Some (Number_of_nat i))
  /\ spec_row signals baseSignal i !! "time"
     = Some (match SignalData.time baseSignal with
             | Some time => time !! i
             | None => Some (Number_of_nat i)
             end)
  /\ forall sig, sig ∈ signals ->
       spec_row signals baseSignal i !! SignalData.id sig
       = if Nat.ltb i (length (SignalData.data sig))
         then Some (SignalData.data sig !! i) else None.
Proof.
  intros Hnodup Hreserved. unfold spec_row, spec_fields.
  cbn [list_to_map foldr uncurry fst snd].
  split; [apply lookup_insert_eq|].
  split; [rewrite lookup_insert_ne by discriminate; apply lookup_insert_eq|].
  intros sig Hsig.
  assert (Hid : SignalData.id sig ∉ ["index"; "time"; "__proto__"]).
  { rewrite Forall_forall in Hreserved. auto. }
  rewrite !not_elem_of_cons in Hid. destruct Hid as (Hindex & Htime & _).
  rewrite !lookup_insert_ne by congruence.
  clear Hreserved Hindex Htime.
  induction signals as [|head signals IH]; [inversion Hsig|].
  simpl in Hnodup. apply NoDup_cons in Hnodup as [Hfresh Hnodup].
  cbn [omap list_omap].
  apply elem_of_cons in Hsig as [->|Hsig].
  - destruct (Nat.ltb i (length (SignalData.data head))).
    + cbn [list_to_map foldr uncurry fst snd mbind option_bind mret option_ret].
      apply lookup_insert_eq.
    + apply not_elem_of_list_to_map_1, spec_fields_keys, Hfresh.
  - assert (Hne : SignalData.id head <> SignalData.id sig).
    { intros Heq. apply Hfresh. rewrite Heq. apply list_elem_of_fmap. eauto. }
    destruct (Nat.ltb i (length (SignalData.data head))).
    + cbn [list_to_map foldr uncurry fst snd mbind option_bind mret option_ret].
      rewrite lookup_insert_ne by exact Hne. auto.
    + auto.
Qed.

(** C4, as the claim states it, fails when a signal's id collides with a
    key the row already uses: a signal whose id is [index] overwrites the
    row's index. *)
Lemma chartData_reserved_id_overwrites_index :
  let sig := SignalData.mk "index" "index" ["index"] [5%float] None None in
  (chartData [sig] !! 0) ≫= (fun row => row !! "index") = Some (Some 5%float)
  /\ (spec_chartData [sig] !! 0) ≫= (fun row => row !! "index") = Some (Some 0%float)
  /\ chartData [sig] <> spec_chartData [sig].
Proof.
  split; [reflexivity|]. split; [reflexivity|].
  intros Heq.
  apply (f_equal (fun rows =>
            match (rows !! 0) ≫= (fun row : Row => row !! "index") with
            | Some (Some x) => PrimFloat.eqb x 5
            | _ => false
            end)) in Heq.
  vm_compute in Heq. discriminate.
Qed.

(** C4, amended. For signals whose ids are pairwise distinct and are none
    of [index], [time] and [__proto__], the projection is the reference
    one: with [n] the first signal's data length and the stride
    [ceil(n/3000)] above 3000 samples and 1 otherwise, one row per index
    [0, step, 2*step, ...] below [n], in increasing order, each row holding
    [index], [time] (the first signal's [time[i]] when it has a time
    sequence, [i] otherwise) and, per signal, a field keyed by its id with
    [data[i]] exactly when [i] is below that signal's data length. *)
Theorem chartData_spec (signals : list SignalData.t) :
  NoDup (SignalData.id <$> signals) ->
  Forall (fun sig => SignalData.id sig ∉ ["index"; "time"; "__proto__"]) signals ->
  chartData signals = spec_chartData signals.
Proof.
  intros Hnodup Hreserved. destruct signals as [|baseSignal rest]; [reflexivity|].
  unfold chartData, spec_chartData, spec_indices.
  fold (spec_step (length (SignalData.data baseSignal))).
  set (n := length (SignalData.data baseSignal)).
  rewrite (for_loop_indices _ n (spec_step n) (spec_step_positive n) n 0)
    by (try apply Nat.Div0.mod_0_l; lia).
  rewrite Nat.sub_0_r. unfold on_stride.
  apply list_fmap_ext. intros _ i _.
  apply point_at_spec_row; assumption.
Qed.

Lemma chartData_spec_witness :
  NoDup (SignalData.id <$> [leaf "rpm"; leaf "speed"])
  /\ Forall (fun sig => SignalData.id sig ∉ ["index"; "time"; "__proto__"])
            [leaf "rpm"; leaf "speed"]
  /\ chartData [leaf "rpm"; leaf "speed"] = spec_chartData [leaf "rpm"; leaf "speed"].
Proof.
  assert (Hnodup : NoDup (SignalData.id <$> [leaf "rpm"; leaf "speed"])).
  { apply (bool_decide_unpack _). reflexivity. }
  assert (Hreserved :
    Forall (fun sig => SignalData.id sig ∉ ["index"; "time"; "__proto__"])
           [leaf "rpm"; leaf "speed"]).
  { apply (bool_decide_unpack _). reflexivity. }
  split; [exact Hnodup|]. split; [exact Hreserved|].
  exact (chartData_spec [leaf "rpm"; leaf "speed"] Hnodup Hreserved).
Defined.

Lemma for_loop_length (body : nat -> Row) (n step : nat) :
  0 < step ->
  forall fuel i,
    length (for_loop fuel n step body i) * step <= (n - i) + step - 1.
Proof.
  intros Hstep fuel. induction fuel as [|fuel IH]; intros i; simpl; [lia|].
  destruct (Nat.ltb_spec i n) as [Hlt|Hge]; simpl; [|lia].
  specialize (IH (i + step)). revert IH.
  generalize (length (for_loop fuel n step body (i + step))). intros rows IH.
  destruct (Nat.le_gt_cases (i + step) n) as [Hin|Hout]; [lia|].
  assert (rows = 0) by nia. subst rows. lia.
Qed.

(** X5. Whatever the signals, the projection never has more rows than the
    display cap. *)
Theorem chartData_bounded (signals : list SignalData.t) :
  length (chartData signals) <= maxDisplayPoints.
Proof.
  destruct signals as [|baseSignal rest]; [unfold maxDisplayPoints; simpl; lia|].
  set (n := length (SignalData.data baseSignal)).
  change (length (for_loop n n (spec_step n)
                    (point_at (baseSignal :: rest) baseSignal) 0)
          <= maxDisplayPoints).
  pose proof (for_loop_length (point_at (baseSignal :: rest) baseSignal) n
                (spec_step n) (spec_step_positive n) n 0) as Hlen.
  revert Hlen. generalize (length (for_loop n n (spec_step n)
                              (point_at (baseSignal :: rest) baseSignal) 0)).
  clearbody n. intros rows Hrows.
  unfold maxDisplayPoints, spec_step, ceil_div in *.
  destruct (Nat.ltb_spec 3000 n) as [Hbig|Hsmall]; [|lia].
  assert (Hstep : n <= 3000 * ((n + 3000 - 1) / 3000)).
  { pose proof (Nat.div_mod_eq (n + 3000 - 1) 3000).
    pose proof (Nat.mod_upper_bound (n + 3000 - 1) 3000). lia. }
  nia.
Qed.

(** ** Tree normalizer *)

Lemma as_numbers_length (value : json) :
  isNumericArray (Some value) = true -> 1 <= length (as_numbers value).
Proof.
  destruct value as [| | | |items|]; try discriminate. simpl.
  destruct items as [|item items]; [discriminate|].
  change (Nat.eqb (length (item :: items)) 0) with false. cbv iota.
  intros Hall. unfold as_numbers. simpl array_items.
  destruct item; try discriminate. cbn [omap list_omap]. simpl. lia.
Qed.

Lemma isNumericArray_inv (v : option json) :
  isNumericArray v = true -> exists value, v = Some value.
Proof. destruct v; [eauto|discriminate]. Qed.

Lemma signal_of_emitted ctv path key value s :
  signal_of ctv path key value = Some s -> emitted ctv s.
Proof.
  unfold signal_of. destruct (isNumericArray (Some value)) eqn:Harr.
  - destruct (_ && _); [discriminate|]. intros [= <-].
    split; simpl; auto using as_numbers_length.
  - destruct (_ && _ && _ && _) eqn:Hts; [|discriminate]. intros [= <-].
    apply andb_prop in Hts as [Hts Htime]. apply andb_prop in Hts as [_ Hdata].
    destruct (isNumericArray_inv _ Hdata) as [d Hd].
    destruct (isNumericArray_inv _ Htime) as [t Ht].
    rewrite Hd in *. rewrite Ht in *.
    split; simpl; auto using as_numbers_length.
    right. eexists. split; [reflexivity|]. auto using as_numbers_length.
Qed.

Lemma flat_set_emitted ctv flat id s :
  flat_emitted ctv flat -> emitted ctv s -> flat_emitted ctv (flat_set flat id s).
Proof.
  unfold flat_set, flat_emitted. intros Hflat Hs.
  destruct (String.eqb id "__proto__"); [assumption|].
  apply map_Forall_insert_2; assumption.
Qed.

Lemma normal_push_signal ctv bus s :
  normal ctv bus -> emitted ctv s -> normal ctv (push_signal bus s).
Proof.
  unfold normal. destruct bus as [name path signals subBuses]. simpl.
  intros [Hsig Hsub] Hs. split; [|assumption].
  rewrite <- app_assoc, Forall_app in *. destruct Hsig as [Hown Hbelow].
  split; [assumption|]. apply Forall_cons; split; assumption.
Qed.

Lemma normal_attach ctv bus sub :
  normal ctv bus -> normal ctv sub -> normal ctv (attach bus sub).
Proof.
  unfold attach. destruct (has_content sub) eqn:Hcontent; [|auto].
  unfold normal. destruct bus as [name path signals subBuses]. simpl.
  intros [Hsig Hsub] [Hsig' Hsub'].
  rewrite !flat_map_app, !Forall_app in *. simpl. rewrite !app_nil_r.
  destruct Hsig as [Hown Hbelow]. repeat split; try assumption.
  apply Forall_cons; split; assumption.
Qed.

Lemma forEach_invariant {A St : Type} (I : St -> Prop)
    (callback : A -> nat -> St -> St) (items : list A) :
  (forall item index st, item ∈ items -> I st -> I (callback item index st)) ->
  forall index st, I st -> I (forEach callback items index st).
Proof.
  induction items as [|item items IH]; intros Hstep index st Hst; [exact Hst|].
  simpl. apply IH.
  - intros item' index' st' Hin. apply Hstep. right. exact Hin.
  - apply Hstep; [left|exact Hst].
Qed.

Lemma fold_left_invariant {A St : Type} (I : St -> Prop)
    (step : St -> A -> St) (items : list A) :
  (forall item st, item ∈ items -> I st -> I (step st item)) ->
  forall st, I st -> I (fold_left step items st).
Proof.
  induction items as [|item items IH]; intros Hstep st Hst; [exact Hst|].
  simpl. apply IH.
  - intros item' st' Hin. apply Hstep. right. exact Hin.
  - apply Hstep; [left|exact Hst].
Qed.

Lemma visit_ok ctv path key value st :
  traverse_ok ctv value ->
  (forall item, item ∈ array_items value -> traverse_ok ctv item) ->
  walk_ok ctv st -> walk_ok ctv (visit (traverse ctv) ctv path key value st).
Proof.
  intros Hvalue Hitems [Hbus Hflat]. unfold visit.
  pose proof (signal_of_emitted ctv path key value) as Hsignal.
  unfold signal_of in Hsignal.
  destruct (isNumericArray (Some value)).
  { destruct (_ && _); [split; assumption|].
    specialize (Hsignal _ eq_refl).
    split; simpl; auto using normal_push_signal, flat_set_emitted. }
  destruct (_ && _ && _ && _).
  { specialize (Hsignal _ eq_refl).
    split; simpl; auto using normal_push_signal, flat_set_emitted. }
  clear Hsignal.
  destruct (_ && _).
  { destruct (Hvalue (path ++ [key]) key st.2 Hflat) as [Hsub Hflat'].
    split; simpl; auto using normal_attach. }
  destruct (_ && _ && _); [|split; assumption].
  destruct value as [| | | |items|]; try (split; assumption).
  apply (forEach_invariant (walk_ok ctv)); [|split; assumption].
  intros item index [bus flat] Hin [Hbus' Hflat']. simpl.
  destruct (Hitems item Hin (path ++ [key] ++ [toString index])
              (key +:+ "[" +:+ toString index +:+ "]") flat Hflat') as [Hsub Hflat''].
  rewrite app_assoc in Hsub, Hflat''.
  split; simpl; auto using normal_attach.
Qed.

Lemma normal_empty ctv busName path : normal ctv (BusNode.mk busName path [] []).
Proof. split; constructor. Qed.

Lemma traverse_ok_all ctv (value : json) :
  traverse_ok ctv value
  /\ (forall item, item ∈ array_items value -> traverse_ok ctv item).
Proof.
  induction value as [| | | |items IH|props IH] using json_ind;
    try (split; [intros path busName flat Hflat; split; [apply normal_empty|exact Hflat]
                |intros item Hin; inversion Hin]).
  - rewrite Forall_forall in IH.
    split; [|intros item Hin; exact (proj1 (IH item Hin))].
    intros path busName flat Hflat. simpl.
    apply (forEach_invariant (walk_ok ctv)); [|split; [apply normal_empty|exact Hflat]].
    intros item index st Hin Hst. destruct (IH item Hin). apply visit_ok; assumption.
  - rewrite Forall_forall in IH. split; [|intros item Hin; inversion Hin].
    intros path busName flat Hflat. simpl.
    apply (fold_left_invariant (walk_ok ctv)); [|split; [apply normal_empty|exact Hflat]].
    intros entry st Hin Hst. destruct (IH entry Hin). apply visit_ok; assumption.
Qed.

Lemma attach_signals (bus sub : BusNode.t) :
  BusNode.signals (attach bus sub) = BusNode.signals bus.
Proof. unfold attach. destruct (has_content sub); reflexivity. Qed.

(** Each key adds to the bus under construction the signal it emits, if
    any, and touches no other signal of that bus. *)
Lemma visit_signals recurse ctv path key value (st : walk) :
  BusNode.signals (visit recurse ctv path key value st).1
  = BusNode.signals st.1 ++ option_list (signal_of ctv path key value).
Proof.
  unfold visit, signal_of.
  destruct (isNumericArray (Some value)).
  { destruct (_ && _); simpl; [rewrite app_nil_r|]; reflexivity. }
  destruct (_ && _ && _ && _); [reflexivity|].
  simpl option_list. rewrite app_nil_r.
  destruct (_ && _); [apply attach_signals|].
  destruct (_ && _ && _); [|reflexivity].
  destruct value as [| | | |items|]; try reflexivity.
  apply (forEach_invariant
           (fun st' : walk => BusNode.signals st'.1 = BusNode.signals st.1));
    [|reflexivity].
  intros item index st' _ Hst'. simpl. rewrite attach_signals. exact Hst'.
Qed.

Lemma fold_visit_signals recurse ctv path props (st : walk) :
  BusNode.signals
    (fold_left (fun st entry => visit recurse ctv path entry.1 entry.2 st)
               props st).1
  = BusNode.signals st.1
    ++ omap (fun entry => signal_of ctv path entry.1 entry.2) props.
Proof.
  revert st. induction props as [|entry props IH]; intros st; simpl.
  - rewrite app_nil_r. reflexivity.
  - rewrite IH, visit_signals, <- app_assoc.
    f_equal. destruct (signal_of ctv path entry.1 entry.2); reflexivity.
Qed.

Lemma traverse_object_signals ctv props path busName flat :
  BusNode.signals (traverse ctv (JObj props) path busName flat).1
  = omap (fun entry => signal_of ctv path entry.1 entry.2) props.
Proof. simpl. rewrite fold_visit_signals. reflexivity. Qed.

Lemma signal_of_name ctv path key value s :
  signal_of ctv path key value = Some s -> SignalData.name s = key.
Proof.
  unfold signal_of. destruct (isNumericArray (Some value)).
  - destruct (_ && _); [discriminate|]. intros [= <-]. reflexivity.
  - destruct (_ && _ && _ && _); [|discriminate]. intros [= <-]. reflexivity.
Qed.

Lemma NoDup_keys_value {V : Type} (props : list (string * V)) key v1 v2 :
  NoDup props.*1 -> (key, v1) ∈ props -> (key, v2) ∈ props -> v1 = v2.
Proof.
  induction props as [|[k v] props IH]; simpl; intros Hnodup H1 H2.
  - inversion H1.
  - apply NoDup_cons in Hnodup as [Hfresh Hnodup].
    assert (Hkey : forall w, (key, w) ∈ props -> key <> k).
    { intros w Hin ->. apply Hfresh, list_elem_of_fmap. exists (k, w). auto. }
    apply elem_of_cons in H1 as [H1|H1]; apply elem_of_cons in H2 as [H2|H2].
    + congruence.
    + inversion H1; subst. destruct (Hkey _ H2 eq_refl).
    + inversion H2; subst. destruct (Hkey _ H1 eq_refl).
    + auto.
Qed.

(** With distinct keys, [node[key]] for a listed key is the value listed
    with it. *)
Lemma assoc_entry (props : list (string * json)) (key : string) (value : json) :
  NoDup props.*1 -> (key, value) ∈ props -> assoc key props = Some value.
Proof.
  induction props as [|[k v] props IH]; simpl; intros Hnodup Hin.
  - inversion Hin.
  - apply NoDup_cons in Hnodup as [Hfresh Hnodup].
    apply elem_of_cons in Hin as [Heq|Hin].
    + inversion Heq; subst. rewrite String.eqb_refl. reflexivity.
    + destruct (String.eqb_spec k key) as [->|Hne]; [|auto].
      exfalso. apply Hfresh, list_elem_of_fmap. exists (key, value). auto.
Qed.

Lemma isNumericArray_truthy (v : option json) :
  isNumericArray v = true -> truthy v = true.
Proof. destruct v as [[]|]; try discriminate; reflexivity. Qed.

Lemma detect_time_first_numeric (props : list (string * json)) :
  detect_time (JObj props) = first_numeric props ["time"; "tout"; "t"].
Proof.
  unfold detect_time, first_numeric. simpl member.
  repeat match goal with
  | |- context [truthy ?v && isNumericArray ?v] =>
      let H := fresh in
      destruct (isNumericArray v) eqn:H;
        [rewrite (isNumericArray_truthy v H)|rewrite andb_false_r]; simpl
  end; reflexivity.
Qed.

(** C1. In every dataset the normalizer returns for a root object (its
    keys distinct, as an object's are) the common time vector is the value
    of the first of [time], [tout], [t] whose root-level value is a numeric
    sequence, and nothing else decides it; a root key [time] or [tout]
    holding a numeric sequence yields no signal of the root bus, while a
    root key [t] holding one does (with the common time vector as its
    time). *)
Theorem parseMatlabJson_time_keys (props : list (string * json))
    (fileName : string) (ds : ParsedDataset.t) :
  NoDup props.*1 ->
  parseMatlabJson (JObj props) fileName = Ok ds ->
  ParsedDataset.commonTimeVector ds
  = first_numeric props ["time"; "tout"; "t"]
  /\ (forall key value,
        key = "time" \/ key = "tout" ->
        (key, value) ∈ props -> isNumericArray (Some value) = true ->
        forall s, s ∈ BusNode.signals (ParsedDataset.rootBus ds) ->
                  SignalData.name s <> key)
  /\ (forall value,
        ("t", value) ∈ props -> isNumericArray (Some value) = true ->
        exists s, s ∈ BusNode.signals (ParsedDataset.rootBus ds)
                  /\ SignalData.name s = "t" /\ SignalData.id s = "t"
                  /\ SignalData.data s = as_numbers value
                  /\ SignalData.time s = ParsedDataset.commonTimeVector ds).
Proof.
  intros Hnodup Hparse.
  assert (Hds : ds = ParsedDataset.mk
                  (traverse (detect_time (JObj props)) (JObj props) [] fileName ∅).1
                  (traverse (detect_time (JObj props)) (JObj props) [] fileName ∅).2
                  (detect_time (JObj props))).
  { unfold parseMatlabJson in Hparse. injection Hparse as <-. reflexivity. }
  rewrite Hds. clear Hds Hparse.
  cbn [ParsedDataset.commonTimeVector ParsedDataset.rootBus].
  split; [apply detect_time_first_numeric|].
  rewrite traverse_object_signals. split.
  - intros key value Hkey Hin Harr s Hs Hname.
    apply list_elem_of_omap in Hs as ([k v] & Hin' & Hsig). simpl in Hsig.
    pose proof (signal_of_name _ _ _ _ _ Hsig) as Hk. rewrite Hname in Hk. subst k.
    rewrite (NoDup_keys_value props key v value Hnodup Hin' Hin) in Hsig.
    unfold signal_of in Hsig. rewrite Harr in Hsig.
    destruct Hkey as [-> | ->]; discriminate.
  - intros value Hin Harr. eexists. split.
    + apply list_elem_of_omap. exists ("t", value). split; [exact Hin|].
      simpl. unfold signal_of. rewrite Harr. reflexivity.
    + simpl. auto.
Qed.

Lemma parseMatlabJson_time_keys_witness :
  NoDup [("time", jnums [0; 1; 2]%float);
         ("a", jnums [1; 2; 3]%float);
         ("b", JObj [("c", jnums [4; 5; 6]%float)]);
         ("t", jnums [7; 8]%float)].*1
  /\ parseMatlabJson demo_json "demo" = Ok demo_dataset
  /\ ParsedDataset.commonTimeVector demo_dataset = Some [0; 1; 2]%float
  /\ exists s, s ∈ BusNode.signals (ParsedDataset.rootBus demo_dataset)
               /\ SignalData.name s = "t" /\ SignalData.id s = "t"
               /\ SignalData.data s = [7; 8]%float
               /\ SignalData.time s = Some [0; 1; 2]%float.
Proof.
  assert (Hnodup : NoDup ["time"; "a"; "b"; "t"]).
  { apply (bool_decide_unpack _). reflexivity. }
  split; [exact Hnodup|]. split; [reflexivity|].
  destruct (parseMatlabJson_time_keys
              [("time", jnums [0; 1; 2]%float);
               ("a", jnums [1; 2; 3]%float);
               ("b", JObj [("c", jnums [4; 5; 6]%float)]);
               ("t", jnums [7; 8]%float)] "demo" demo_dataset Hnodup eq_refl)
    as (Hctv & _ & Ht).
  split; [rewrite Hctv; reflexivity|].
  apply (Ht (jnums [7; 8]%float)); [|reflexivity].
  do 3 apply list_elem_of_further. apply list_elem_of_here.
Defined.

Lemma detect_time_length (jsonData : json) (time : list float) :
  detect_time jsonData = Some time -> 1 <= length time.
Proof.
  unfold detect_time.
  repeat match goal with
  | |- context [truthy ?v && isNumericArray ?v] =>
      let H := fresh in
      destruct (isNumericArray v) eqn:H;
        [rewrite (isNumericArray_truthy v H);
         destruct (isNumericArray_inv v H) as [? Hv]; rewrite Hv in *;
         simpl; intros [= <-]; apply as_numbers_length; assumption
        |rewrite andb_false_r; simpl]
  end.
  discriminate.
Qed.

(** What every run that returns a dataset establishes. *)
Lemma parseMatlabJson_ok (jsonData : json) (fileName : string)
    (ds : ParsedDataset.t) :
  parseMatlabJson jsonData fileName = Ok ds ->
  ParsedDataset.commonTimeVector ds = detect_time jsonData
  /\ normal (ParsedDataset.commonTimeVector ds) (ParsedDataset.rootBus ds)
  /\ flat_emitted (ParsedDataset.commonTimeVector ds) (ParsedDataset.flatSignals ds).
Proof.
  intros Hparse.
  assert (Hds : ds = ParsedDataset.mk
                  (traverse (detect_time jsonData) jsonData [] fileName ∅).1
                  (traverse (detect_time jsonData) jsonData [] fileName ∅).2
                  (detect_time jsonData)).
  { unfold parseMatlabJson in Hparse.
    destruct jsonData; try discriminate; injection Hparse as <-; reflexivity. }
  rewrite Hds. cbn [ParsedDataset.commonTimeVector ParsedDataset.rootBus
                    ParsedDataset.flatSignals].
  split; [reflexivity|].
  apply (proj1 (traverse_ok_all (detect_time jsonData) jsonData)).
  apply map_Forall_empty.
Qed.

Lemma signal_in_emitted (jsonData : json) (fileName : string)
    (ds : ParsedDataset.t) (s : SignalData.t) :
  parseMatlabJson jsonData fileName = Ok ds ->
  signal_in ds s ->
  emitted (ParsedDataset.commonTimeVector ds) s.
Proof.
  intros Hparse Hin.
  destruct (parseMatlabJson_ok _ _ _ Hparse) as (_ & [Htree _] & Hflat).
  destruct Hin as [Hin|[id Hid]].
  - rewrite Forall_forall in Htree. auto.
  - exact (Hflat id s Hid).
Qed.

(** C2, as the claim states it, fails: the common time vector is given to
    a signal whatever the signal's length.  Here signal [a] has two samples
    and a time vector of three. *)
Lemma parseMatlabJson_time_length_mismatch :
  exists ds s time,
    parseMatlabJson mismatch_json "demo" = Ok ds
    /\ s ∈ all_signals (ParsedDataset.rootBus ds)
    /\ ParsedDataset.flatSignals ds !! "a" = Some s
    /\ SignalData.time s = Some time
    /\ length time = 3
    /\ length (SignalData.data s) = 2.
Proof.
  eexists. eexists. eexists.
  split; [reflexivity|]. split; [apply list_elem_of_here|].
  repeat split; reflexivity.
Qed.

(** C3. Every bus attached below the root, at any depth, has at least one
    signal or at least one sub-bus. *)
Theorem parseMatlabJson_attached_nonempty (jsonData : json) (fileName : string)
    (ds : ParsedDataset.t) (bus : BusNode.t) :
  parseMatlabJson jsonData fileName = Ok ds ->
  bus ∈ attached (ParsedDataset.rootBus ds) ->
  1 <= length (BusNode.signals bus) \/ 1 <= length (BusNode.subBuses bus).
Proof.
  intros Hparse Hin.
  destruct (parseMatlabJson_ok _ _ _ Hparse) as (_ & [_ Hattached] & _).
  rewrite Forall_forall in Hattached. specialize (Hattached bus Hin).
  unfold has_content in Hattached. apply orb_prop in Hattached.
  destruct Hattached as [H|H]; apply Nat.ltb_lt in H; [left|right]; lia.
Qed.

Lemma parseMatlabJson_attached_nonempty_witness :
  parseMatlabJson demo_json "demo" = Ok demo_dataset
  /\ BusNode.mk "b" ["b"]
       [SignalData.mk "b.c" "c" ["b"; "c"] [4; 5; 6]%float (Some [0; 1; 2]%float)
          (Some (calculateStats [4; 5; 6]%float))] []
     ∈ attached (ParsedDataset.rootBus demo_dataset)
  /\ (1 <= 1 \/ 1 <= 0).
Proof.
  split; [reflexivity|]. split; [apply list_elem_of_here|].
  apply (parseMatlabJson_attached_nonempty demo_json "demo" demo_dataset
           (BusNode.mk "b" ["b"]
              [SignalData.mk "b.c" "c" ["b"; "c"] [4; 5; 6]%float
                 (Some [0; 1; 2]%float)
                 (Some (calculateStats [4; 5; 6]%float))] [])).
  - reflexivity.
  - apply list_elem_of_here.
Defined.

(** C10. Every signal of the dataset has at least one sample and carries
    statistics, and those statistics come from the branch for sequences
    that are not empty: the all-zero case for the empty sequence is never
    the one taken. *)
Theorem parseMatlabJson_signal_stats (jsonData : json) (fileName : string)
    (ds : ParsedDataset.t) (s : SignalData.t) :
  parseMatlabJson jsonData fileName = Ok ds ->
  signal_in ds s ->
  1 <= length (SignalData.data s)
  /\ SignalData.stats s = Some (calculateStats (SignalData.data s))
  /\ calculateStats (SignalData.data s) = stats_of_samples (SignalData.data s).
Proof.
  intros Hparse Hin.
  destruct (signal_in_emitted _ _ _ _ Hparse Hin) as [Hdata Hstats _].
  repeat split; try assumption.
  unfold calculateStats. destruct (SignalData.data s); [simpl in Hdata; lia|].
  reflexivity.
Qed.

Lemma parseMatlabJson_signal_stats_witness :
  parseMatlabJson demo_json "demo" = Ok demo_dataset
  /\ ParsedDataset.flatSignals demo_dataset !! "b.c"
     = Some (SignalData.mk "b.c" "c" ["b"; "c"] [4; 5; 6]%float
               (Some [0; 1; 2]%float) (Some (stats_of_samples [4; 5; 6]%float)))
  /\ 1 <= length [4; 5; 6]%float
  /\ Some (stats_of_samples [4; 5; 6]%float)
     = Some (calculateStats [4; 5; 6]%float)
  /\ calculateStats [4; 5; 6]%float = stats_of_samples [4; 5; 6]%float.
Proof.
  split; [reflexivity|]. split; [reflexivity|].
  apply (parseMatlabJson_signal_stats demo_json "demo" demo_dataset
           (SignalData.mk "b.c" "c" ["b"; "c"] [4; 5; 6]%float
              (Some [0; 1; 2]%float) (Some (stats_of_samples [4; 5; 6]%float)))).
  - reflexivity.
  - right. exists "b.c". reflexivity.
Defined.

(** C9: the run on the JSON document [null].  Line 25 reads [jsonData.time]
    before the traversal's own guard against [null] is reached, and that
    read throws. *)
Theorem parseMatlabJson_null_throws (fileName : string) :
  parseMatlabJson JNull fileName = Throw TypeError.
Proof. reflexivity. Qed.

(** Normalizing the empty object: a root bus without signals or
    sub-buses and an empty flat record. *)
Lemma parseMatlabJson_empty_object (fileName : string) :
  parseMatlabJson (JObj []) fileName
  = Ok (ParsedDataset.mk (BusNode.mk fileName [] [] []) ∅ None).
Proof. reflexivity. Qed.

(** The example of the specification: root signal [a] with the common
    time vector, one sub-bus [b] holding signal [b.c], no signal for the
    root key [time], and both signals in the flat record. *)
Lemma parseMatlabJson_spec_example :
  let a := SignalData.mk "a" "a" ["a"] [1; 2; 3]%float (Some [0; 1; 2]%float)
             (Some (calculateStats [1; 2; 3]%float)) in
  let c := SignalData.mk "b.c" "c" ["b"; "c"] [4; 5; 6]%float (Some [0; 1; 2]%float)
             (Some (calculateStats [4; 5; 6]%float)) in
  parseMatlabJson spec_example "demo"
  = Ok (ParsedDataset.mk
          (BusNode.mk "demo" [] [a] [BusNode.mk "b" ["b"] [c] []])
          (<["b.c" := c]> (<["a" := a]> ∅))
          (Some [0; 1; 2]%float)).
Proof. vm_compute. reflexivity. Qed.

(** ** Signal statistics *)

(** *** The order of binary64 values, through its specification *)

Ltac order_cases :=
  repeat match goal with
  | H : context [Pos.compare_cont Eq ?a ?b] |- _ =>
      change (Pos.compare_cont Eq a b) with (Pos.compare a b) in H
  | |- context [Pos.compare_cont Eq ?a ?b] =>
      change (Pos.compare_cont Eq a b) with (Pos.compare a b)
  end;
  repeat match goal with
  | H : context [Z.compare ?a ?b] |- _ => destruct (Z.compare_spec a b); simpl in H
  | |- context [Z.compare ?a ?b] => destruct (Z.compare_spec a b); simpl
  | H : context [Pos.compare ?a ?b] |- _ => destruct (Pos.compare_spec a b); simpl in H
  | |- context [Pos.compare ?a ?b] => destruct (Pos.compare_spec a b); simpl
  end;
  try discriminate; try reflexivity; try lia.

Lemma SFcompare_refl (a : spec_float) :
  a <> S754_nan -> SFcompare a a = Some Eq.
Proof.
  destruct a as [[]|[]| |[] m e]; simpl; intros Hnan; try congruence;
    rewrite Z.compare_refl; change (Pos.compare_cont Eq m m) with (Pos.compare m m);
    rewrite Pos.compare_refl; reflexivity.
Qed.

Lemma SFleb_total (a b : spec_float) :
  a <> S754_nan -> b <> S754_nan -> SFltb a b = false -> SFleb b a = true.
Proof.
  unfold SFltb, SFleb.
  destruct a as [[]|[]| |[] ma ea], b as [[]|[]| |[] mb eb]; simpl;
    intros Ha Hb H; try congruence; order_cases.
Qed.

Lemma SFltb_leb (a b : spec_float) : SFltb a b = true -> SFleb a b = true.
Proof. unfold SFltb, SFleb. destruct (SFcompare a b) as [[]|]; auto. Qed.

Lemma SFleb_trans (a b c : spec_float) :
  SFleb a b = true -> SFleb b c = true -> SFleb a c = true.
Proof.
  unfold SFleb.
  destruct a as [[]|[]| |[] ma ea], b as [[]|[]| |[] mb eb],
           c as [[]|[]| |[] mc ec]; simpl; intros H1 H2;
    try discriminate; try reflexivity; order_cases.
Qed.

Lemma not_nan_spec (x : float) :
  PrimFloat.is_nan x = false -> Prim2SF x <> S754_nan.
Proof.
  unfold PrimFloat.is_nan. rewrite FloatAxioms.eqb_spec. intros H Hnan.
  rewrite Hnan in H. discriminate.
Qed.

Lemma leb_refl (x : float) : PrimFloat.is_nan x = false -> PrimFloat.leb x x = true.
Proof.
  intros Hx. rewrite FloatAxioms.leb_spec. unfold SFleb.
  rewrite SFcompare_refl by (apply not_nan_spec, Hx). reflexivity.
Qed.

Lemma leb_total (x y : float) :
  PrimFloat.is_nan x = false -> PrimFloat.is_nan y = false ->
  PrimFloat.ltb x y = false -> PrimFloat.leb y x = true.
Proof.
  intros Hx Hy. rewrite FloatAxioms.ltb_spec, FloatAxioms.leb_spec.
  apply SFleb_total; apply not_nan_spec; assumption.
Qed.

Lemma ltb_leb (x y : float) : PrimFloat.ltb x y = true -> PrimFloat.leb x y = true.
Proof. rewrite FloatAxioms.ltb_spec, FloatAxioms.leb_spec. apply SFltb_leb. Qed.

Lemma leb_trans (x y z : float) :
  PrimFloat.leb x y = true -> PrimFloat.leb y z = true -> PrimFloat.leb x z = true.
Proof. rewrite !FloatAxioms.leb_spec. apply SFleb_trans. Qed.

Lemma zeros_leb (x y : float) :
  (is_neg_zero x = true \/ is_pos_zero x = true) ->
  (is_neg_zero y = true \/ is_pos_zero y = true) ->
  PrimFloat.leb x y = true.
Proof.
  unfold is_neg_zero, is_pos_zero. rewrite !FloatAxioms.classify_spec, FloatAxioms.leb_spec.
  unfold SF64classify, SFclassify.
  destruct (Prim2SF x) as [[]|[]| |[] mx ex], (Prim2SF y) as [[]|[]| |[] my ey];
    repeat match goal with |- context [if ?c then _ else _] => destruct c end;
    intros [Hx|Hx] [Hy|Hy]; try discriminate; reflexivity.
Qed.

(** *** Extrema *)

Lemma Math_min_from_lower (coerced : list float) :
  Forall not_nan coerced ->
  forall lowest, not_nan lowest ->
    PrimFloat.leb (Math_min_from lowest coerced) lowest = true
    /\ Forall (fun x => PrimFloat.leb (Math_min_from lowest coerced) x = true) coerced.
Proof.
  induction 1 as [|number rest Hnumber _ IH]; intros lowest Hlowest; simpl.
  - split; [apply leb_refl, Hlowest|constructor].
  - unfold not_nan in Hnumber. rewrite Hnumber.
    destruct (is_neg_zero number && is_pos_zero lowest) eqn:Hzero.
    { apply andb_prop in Hzero as [Hneg Hpos].
      destruct (IH number Hnumber) as [Hle Hrest]. split.
      - eapply leb_trans; [exact Hle|]. apply zeros_leb; auto.
      - constructor; assumption. }
    destruct (PrimFloat.ltb number lowest) eqn:Hlt.
    { destruct (IH number Hnumber) as [Hle Hrest]. split.
      - eapply leb_trans; [exact Hle|]. apply ltb_leb, Hlt.
      - constructor; assumption. }
    destruct (IH lowest Hlowest) as [Hle Hrest]. split; [exact Hle|].
    constructor; [|exact Hrest].
    eapply leb_trans; [exact Hle|]. apply leb_total; assumption.
Qed.

Lemma Math_max_from_upper (coerced : list float) :
  Forall not_nan coerced ->
  forall highest, not_nan highest ->
    PrimFloat.leb highest (Math_max_from highest coerced) = true
    /\ Forall (fun x => PrimFloat.leb x (Math_max_from highest coerced) = true) coerced.
Proof.
  induction 1 as [|number rest Hnumber _ IH]; intros highest Hhighest; simpl.
  - split; [apply leb_refl, Hhighest|constructor].
  - unfold not_nan in Hnumber. rewrite Hnumber.
    destruct (is_pos_zero number && is_neg_zero highest) eqn:Hzero.
    { apply andb_prop in Hzero as [Hpos Hneg].
      destruct (IH number Hnumber) as [Hle Hrest]. split.
      - eapply leb_trans; [|exact Hle]. apply zeros_leb; auto.
      - constructor; assumption. }
    destruct (PrimFloat.ltb highest number) eqn:Hlt.
    { destruct (IH number Hnumber) as [Hle Hrest]. split.
      - eapply leb_trans; [|exact Hle]. apply ltb_leb, Hlt.
      - constructor; assumption. }
    destruct (IH highest Hhighest) as [Hle Hrest]. split; [exact Hle|].
    constructor; [|exact Hrest].
    eapply leb_trans; [|exact Hle]. apply leb_total; assumption.
Qed.

(** C8, as the claim states it, fails: the mean is the rounded sum divided
    by the length, and rounding can push it past an extremum.  For three
    samples of 0.1 the sum is 0.30000000000000004 and the mean
    0.10000000000000002, above the maximum 0.1. *)
Lemma calculateStats_mean_above_max :
  PrimFloat.eqb (Stats.max (calculateStats tenths)) 0x1.999999999999ap-4 = true
  /\ PrimFloat.eqb (Stats.mean (calculateStats tenths)) 0x1.999999999999bp-4 = true
  /\ PrimFloat.ltb (Stats.max (calculateStats tenths))
                   (Stats.mean (calculateStats tenths)) = true
  /\ PrimFloat.leb (Stats.mean (calculateStats tenths))
                   (Stats.max (calculateStats tenths)) = false.
Proof. repeat split; vm_compute; reflexivity. Qed.

(** C8, amended. The empty sequence has all four statistics zero; for a
    sequence that is not empty and holds no NaN, the minimum is at most
    every sample and every sample is at most the maximum, so the minimum is
    at most the maximum.  (The mean is bounded by neither.) *)
Theorem calculateStats_bounds (d : list float) :
  Forall not_nan d ->
  match d with
  | [] => calculateStats d = Stats.mk 0 0 0 0
  | _ :: _ =>
      PrimFloat.leb (Stats.min (calculateStats d)) (Stats.max (calculateStats d)) = true
      /\ Forall (fun x =>
                   PrimFloat.leb (Stats.min (calculateStats d)) x = true
                   /\ PrimFloat.leb x (Stats.max (calculateStats d)) = true) d
  end.
Proof.
  intros Hd. destruct d as [|x d]; [reflexivity|].
  change (calculateStats (x :: d)) with (stats_of_samples (x :: d)).
  cbn [stats_of_samples Stats.min Stats.max]. unfold Math_min, Math_max.
  destruct (Math_min_from_lower (x :: d) Hd infinity eq_refl) as [_ Hmin].
  destruct (Math_max_from_upper (x :: d) Hd neg_infinity eq_refl) as [_ Hmax].
  split.
  - apply Forall_cons in Hmin as [Hmin _]. apply Forall_cons in Hmax as [Hmax _].
    eapply leb_trans; eassumption.
  - rewrite Forall_forall in *. auto.
Qed.

Lemma calculateStats_bounds_witness :
  Forall not_nan tenths
  /\ PrimFloat.leb (Stats.min (calculateStats tenths))
                   (Stats.max (calculateStats tenths)) = true
  /\ Forall (fun x =>
               PrimFloat.leb (Stats.min (calculateStats tenths)) x = true
               /\ PrimFloat.leb x (Stats.max (calculateStats tenths)) = true) tenths.
Proof.
  assert (Hd : Forall not_nan tenths) by (repeat constructor).
  split; [exact Hd|]. exact (calculateStats_bounds tenths Hd).
Defined.

(** * Further properties *)

(** ** Tree filter: what a search shows *)

Lemma all_signals_eq (bus : BusNode.t) :
  all_signals bus
  = BusNode.signals bus ++ flat_map all_signals (BusNode.subBuses bus).
Proof. destruct bus; reflexivity. Qed.

Lemma matching_signals_eq (term : string) (bus : BusNode.t) :
  matching_signals term bus
  = if mentions term (BusNode.name bus) then all_signals bus
    else List.filter (fun s => mentions term (SignalData.name s)) (BusNode.signals bus)
         ++ flat_map (matching_signals term) (BusNode.subBuses bus).
Proof. destruct bus; reflexivity. Qed.

Lemma flat_map_omap {A B C : Type} (f : A -> option B) (g : B -> list C)
    (h : A -> list C) (l : list A) :
  Forall (fun x => from_option g [] (f x) = h x) l ->
  flat_map g (omap f l) = flat_map h l.
Proof.
  induction 1 as [|x l Hx _ IH]; [reflexivity|].
  cbn [omap list_omap flat_map]. destruct (f x) as [y|]; simpl in *.
  - rewrite Hx, IH. reflexivity.
  - rewrite <- Hx, IH. reflexivity.
Qed.

Lemma mentions_empty (name : string) : mentions "" name = true.
Proof. unfold mentions. destruct (toLowerCase name); reflexivity. Qed.

(** X3. The signals of the filtered tree, in tree order, are exactly the
    signals of the original tree that lie under a bus whose name contains
    the term or whose own name contains it; a null result stands for
    none. *)
Theorem filterBusTree_signals (tree : BusNode.t) (term : string) :
  from_option all_signals [] (filterBusTree tree term) = matching_signals term tree.
Proof.
  destruct (String.eqb_spec term "") as [->|Hterm].
  { rewrite filterBusTree_eq, matching_signals_eq, mentions_empty.
    reflexivity. }
  apply String.eqb_neq in Hterm.
  induction tree as [name path signals subBuses IH] using BusNode_ind.
  rewrite filterBusTree_eq, matching_signals_eq, Hterm.
  cbn [BusNode.name BusNode.signals BusNode.subBuses].
  fold (mentions term name). destruct (mentions term name); [reflexivity|].
  cbv zeta.
  assert (Hsubs :
    flat_map all_signals (omap (fun sub => filterBusTree sub term) subBuses)
    = flat_map (matching_signals term) subBuses).
  { apply flat_map_omap. exact IH. }
  destruct (_ || _) eqn:Hcontent.
  - simpl. rewrite Hsubs. reflexivity.
  - apply orb_false_elim in Hcontent as [Hsig Hsub].
    apply length_pos_nil in Hsig, Hsub.
    rewrite <- Hsubs, Hsub. unfold mentions. rewrite Hsig. reflexivity.
Qed.

(** ** Tree normalizer: paths and the flat record *)

Lemma signal_of_id ctv path key value s :
  signal_of ctv path key value = Some s ->
  SignalData.id s = join "." (path ++ [key])
  /\ SignalData.path s = path ++ [key]
  /\ SignalData.name s = key.
Proof.
  unfold signal_of. destruct (isNumericArray (Some value)).
  - destruct (_ && _); [discriminate|]. intros [= <-]. auto.
  - destruct (_ && _ && _ && _); [|discriminate]. intros [= <-]. auto.
Qed.

(** Induction over a run of [traverse]: a relation between the path and
    flat record a run starts from and the state it has reached holds of
    every run if it holds of the fresh bus, survives the emission of a
    signal and survives the attachment of a traversed child. *)
Section traverse_induction.
Variable ctv : option (list float).
Variable Q : list string -> gmap string SignalData.t -> walk -> Prop.
Hypothesis Q_init : forall path busName flat,
  Q path flat (BusNode.mk busName path [] [], flat).
Hypothesis Q_emit : forall path flat0 (st : walk) key value s,
  Q path flat0 st -> signal_of ctv path key value = Some s ->
  Q path flat0 (push_signal st.1 s, flat_set st.2 (SignalData.id s) s).
Hypothesis Q_sub : forall path flat0 (st sub : walk) rest,
  rest <> [] -> Q path flat0 st -> Q (path ++ rest) st.2 sub ->
  Q path flat0 (attach st.1 sub.1, sub.2).

Lemma visit_keeps path flat0 key value (st : walk) :
  traverse_keeps ctv Q value ->
  (forall item, item ∈ array_items value -> traverse_keeps ctv Q item) ->
  Q path flat0 st -> Q path flat0 (visit (traverse ctv) ctv path key value st).
Proof.
  intros Hvalue Hitems Hst. unfold visit.
  pose proof (Q_emit path flat0 st key value) as Hemit.
  unfold signal_of in Hemit.
  destruct (isNumericArray (Some value)).
  { destruct (_ && _); [exact Hst|]. exact (Hemit _ Hst eq_refl). }
  destruct (_ && _ && _ && _); [exact (Hemit _ Hst eq_refl)|].
  clear Hemit.
  destruct (_ && _).
  { apply (Q_sub path flat0 st _ [key]); [discriminate|exact Hst|apply Hvalue]. }
  destruct (_ && _ && _); [|exact Hst].
  destruct value as [| | | |items|]; try exact Hst.
  apply (forEach_invariant (Q path flat0)); [|exact Hst].
  intros item index st' Hin Hst'.
  apply (Q_sub path flat0 st' _ ([key] ++ [toString index]));
    [discriminate|exact Hst'|].
  rewrite app_assoc. apply (Hitems item Hin).
Qed.

Lemma traverse_keeps_all (value : json) :
  traverse_keeps ctv Q value
  /\ (forall item, item ∈ array_items value -> traverse_keeps ctv Q item).
Proof.
  induction value as [| | | |items IH|props IH] using json_ind;
    try (split; [intros path busName flat; apply Q_init
                |intros item Hin; inversion Hin]).
  - rewrite Forall_forall in IH.
    split; [|intros item Hin; exact (proj1 (IH item Hin))].
    intros path busName flat. simpl.
    apply (forEach_invariant (Q path flat)); [|apply Q_init].
    intros item index st Hin Hst. destruct (IH item Hin). apply visit_keeps; assumption.
  - rewrite Forall_forall in IH. split; [|intros item Hin; inversion Hin].
    intros path busName flat. simpl.
    apply (fold_left_invariant (Q path flat)); [|apply Q_init].
    intros entry st Hin Hst. destruct (IH entry Hin). apply visit_keeps; assumption.
Qed.
End traverse_induction.

Lemma attached_eq (bus : BusNode.t) :
  attached bus = flat_map (fun sub => sub :: attached sub) (BusNode.subBuses bus).
Proof. destruct bus; reflexivity. Qed.

Lemma all_signals_push_signal bus s :
  all_signals (push_signal bus s) ≡ₚ all_signals bus ++ [s].
Proof.
  rewrite (all_signals_eq (push_signal bus s)), (all_signals_eq bus). simpl.
  rewrite <- !app_assoc. apply Permutation_app_head, Permutation_app_comm.
Qed.

Lemma all_signals_push_subBus bus sub :
  all_signals (push_subBus bus sub) = all_signals bus ++ all_signals sub.
Proof.
  rewrite (all_signals_eq (push_subBus bus sub)), (all_signals_eq bus). simpl.
  rewrite flat_map_app. simpl. rewrite app_nil_r, app_assoc. reflexivity.
Qed.

Lemma all_signals_has_content bus s :
  s ∈ all_signals bus -> has_content bus = true.
Proof.
  rewrite all_signals_eq. unfold has_content. intros Hin.
  apply elem_of_app in Hin as [Hin|Hin].
  - destruct (BusNode.signals bus); [inversion Hin|reflexivity].
  - destruct (BusNode.subBuses bus); [inversion Hin|].
    simpl. apply orb_true_r.
Qed.

(** The signals of [attach bus sub]: those of [bus], and those of [sub]
    (a pruned child has none). *)
Lemma elem_of_all_signals_attach bus sub s :
  s ∈ all_signals (attach bus sub) <-> s ∈ all_signals bus \/ s ∈ all_signals sub.
Proof.
  unfold attach. destruct (has_content sub) eqn:Hcontent.
  - rewrite all_signals_push_subBus, elem_of_app. reflexivity.
  - split; [auto|]. intros [H|H]; [exact H|].
    apply all_signals_has_content in H. congruence.
Qed.

Lemma elem_of_all_signals_push bus s s' :
  s' ∈ all_signals (push_signal bus s) <-> s' ∈ all_signals bus \/ s' = s.
Proof.
  rewrite all_signals_push_signal, elem_of_app, list_elem_of_singleton. reflexivity.
Qed.

Lemma lookup_flat_set flat id s k :
  flat_set flat id s !! k
  = if decide (id <> "__proto__" /\ id = k) then Some s else flat !! k.
Proof.
  unfold flat_set. destruct (String.eqb_spec id "__proto__") as [->|Hid].
  - destruct (decide _) as [[H _]|_]; [congruence|reflexivity].
  - destruct (decide _) as [[_ ->]|Hne].
    + apply lookup_insert_eq.
    + apply lookup_insert_ne. tauto.
Qed.

Lemma traverse_flat_from_tree ctv value path busName flat :
  flat_from_tree path flat (traverse ctv value path busName flat).
Proof.
  apply (traverse_keeps_all ctv flat_from_tree); clear.
  - intros path busName flat k s Hk. left. exact Hk.
  - intros path flat0 st key value s Hst _ k s'. cbn [fst snd].
    rewrite lookup_flat_set, elem_of_all_signals_push.
    destruct (decide _) as [[_ <-]|_].
    + intros [= <-]. right. auto.
    + intros Hk. destruct (Hst k s' Hk) as [H|[H1 H2]]; auto.
  - intros path flat0 st sub rest _ Hst Hsub k s. cbn [fst snd].
    rewrite elem_of_all_signals_attach. intros Hk.
    destruct (Hsub k s Hk) as [H|[H1 H2]]; [|auto].
    destruct (Hst k s H) as [H'|[H1 H2]]; auto.
Qed.

Lemma traverse_tree_in_flat ctv value path busName flat :
  tree_in_flat path flat (traverse ctv value path busName flat).
Proof.
  apply (traverse_keeps_all ctv tree_in_flat); clear.
  - intros path busName flat. split; [auto|]. intros s Hs. inversion Hs.
  - intros path flat0 st key value s [Hdom Hst] _. split; cbn [fst snd].
    + intros k Hk. rewrite lookup_flat_set. destruct (decide _); eauto.
    + intros s'. rewrite elem_of_all_signals_push, lookup_flat_set.
      intros [Hin| ->] Hid; destruct (decide _) as [|Hne]; eauto.
      exfalso. apply Hne. auto.
  - intros path flat0 st sub rest _ [Hdom Hst] [Hdom' Hsub]. split; cbn [fst snd].
    + auto.
    + intros s. rewrite elem_of_all_signals_attach. intros [Hin|Hin] Hid; auto.
Qed.

Lemma attached_push_subBus bus sub :
  attached (push_subBus bus sub) = attached bus ++ sub :: attached sub.
Proof.
  rewrite (attached_eq (push_subBus bus sub)), (attached_eq bus). simpl.
  rewrite flat_map_app. simpl. rewrite app_nil_r. reflexivity.
Qed.

Lemma traverse_tree_shaped ctv value path busName flat :
  tree_shaped path flat (traverse ctv value path busName flat).
Proof.
  apply (traverse_keeps_all ctv tree_shaped); clear.
  - intros path busName flat. split; [reflexivity|].
    repeat constructor.
  - intros path flat0 [bus flat] key value s [Hpath Hshaped] Hs.
    destruct (signal_of_id _ _ _ _ _ Hs) as (Hid & Hspath & Hname).
    split; cbn [fst snd] in *; [destruct bus; exact Hpath|].
    apply Forall_cons in Hshaped as [[Hsig Hsub] Hbelow].
    apply Forall_cons. split; [|destruct bus; exact Hbelow].
    split; [|destruct bus; exact Hsub].
    destruct bus as [name bpath signals subBuses]. simpl in *.
    apply Forall_app. split; [exact Hsig|].
    constructor; [|constructor]. subst bpath. rewrite Hspath, Hname, Hid. auto.
  - intros path flat0 [bus flat] [sub flat'] rest Hrest [Hpath Hshaped] [Hpath' Hshaped'].
    unfold tree_shaped. cbn [fst snd] in *. unfold attach.
    destruct (has_content sub); [|split; assumption].
    split; [destruct bus; exact Hpath|].
    rewrite attached_push_subBus.
    apply Forall_cons in Hshaped as [[Hsig Hsub] Hbelow].
    apply Forall_cons. split.
    + split; [destruct bus; exact Hsig|].
      destruct bus as [name bpath signals subBuses]. simpl in *.
      apply Forall_app. split; [exact Hsub|].
      constructor; [|constructor]. exists rest. subst. auto.
    + apply Forall_app. split; assumption.
Qed.

Lemma parseMatlabJson_walk (jsonData : json) (fileName : string)
    (ds : ParsedDataset.t) :
  parseMatlabJson jsonData fileName = Ok ds ->
  exists ctv,
    ParsedDataset.rootBus ds = (traverse ctv jsonData [] fileName ∅).1
    /\ ParsedDataset.flatSignals ds = (traverse ctv jsonData [] fileName ∅).2.
Proof.
  unfold parseMatlabJson. intros Hparse. exists (detect_time jsonData).
  destruct jsonData; try discriminate; injection Hparse as <-; auto.
Qed.

(** X1. The flat record and the tree of a normalized dataset hold the same
    signals: every entry of the flat record is a signal of the tree filed
    under its own id, and every signal of the tree whose id is not
    [__proto__] has its id bound in the flat record, to a signal of the tree
    with that id. *)
Theorem parseMatlabJson_flat_agrees (jsonData : json) (fileName : string)
    (ds : ParsedDataset.t) :
  parseMatlabJson jsonData fileName = Ok ds ->
  (forall k s, ParsedDataset.flatSignals ds !! k = Some s ->
     s ∈ all_signals (ParsedDataset.rootBus ds) /\ SignalData.id s = k)
  /\ (forall s, s ∈ all_signals (ParsedDataset.rootBus ds) ->
        SignalData.id s <> "__proto__" ->
        exists s', ParsedDataset.flatSignals ds !! SignalData.id s = Some s'
                   /\ SignalData.id s' = SignalData.id s
                   /\ s' ∈ all_signals (ParsedDataset.rootBus ds)).
Proof.
  intros Hparse. destruct (parseMatlabJson_walk _ _ _ Hparse) as (ctv & -> & ->).
  pose proof (traverse_flat_from_tree ctv jsonData [] fileName ∅) as Hflat.
  pose proof (traverse_tree_in_flat ctv jsonData [] fileName ∅) as [_ Htree].
  assert (Hin : forall k s, (traverse ctv jsonData [] fileName ∅).2 !! k = Some s ->
            s ∈ all_signals (traverse ctv jsonData [] fileName ∅).1
            /\ SignalData.id s = k).
  { intros k s Hk. destruct (Hflat k s Hk) as [Hempty|H]; [|exact H].
    rewrite lookup_empty in Hempty. discriminate. }
  split; [exact Hin|].
  intros s Hs Hid. destruct (Htree s Hs Hid) as [s' Hs'].
  exists s'. destruct (Hin _ _ Hs'). auto.
Qed.

Lemma parseMatlabJson_flat_agrees_witness :
  parseMatlabJson demo_json "demo" = Ok demo_dataset
  /\ (forall k s, ParsedDataset.flatSignals demo_dataset !! k = Some s ->
        s ∈ all_signals (ParsedDataset.rootBus demo_dataset) /\ SignalData.id s = k)
  /\ (forall s, s ∈ all_signals (ParsedDataset.rootBus demo_dataset) ->
        SignalData.id s <> "__proto__" ->
        exists s', ParsedDataset.flatSignals demo_dataset !! SignalData.id s = Some s'
                   /\ SignalData.id s' = SignalData.id s
                   /\ s' ∈ all_signals (ParsedDataset.rootBus demo_dataset)).
Proof.
  split; [reflexivity|].
  exact (parseMatlabJson_flat_agrees demo_json "demo" demo_dataset eq_refl).
Defined.

(** X2. In a normalized dataset the root bus has the empty path; in the
    root and in every bus attached below it, each signal's path is the bus's
    path followed by the signal's name and its id is that path joined with
    dots, and each sub-bus's path extends the bus's path by at least one
    segment. *)
Theorem parseMatlabJson_paths (jsonData : json) (fileName : string)
    (ds : ParsedDataset.t) :
  parseMatlabJson jsonData fileName = Ok ds ->
  BusNode.path (ParsedDataset.rootBus ds) = []
  /\ forall bus,
       bus ∈ ParsedDataset.rootBus ds :: attached (ParsedDataset.rootBus ds) ->
       (forall s, s ∈ BusNode.signals bus ->
          SignalData.path s = BusNode.path bus ++ [SignalData.name s]
          /\ SignalData.id s = join "." (SignalData.path s))
       /\ (forall sub, sub ∈ BusNode.subBuses bus ->
             exists rest, rest <> []
                          /\ BusNode.path sub = BusNode.path bus ++ rest).
Proof.
  intros Hparse. destruct (parseMatlabJson_walk _ _ _ Hparse) as (ctv & -> & _).
  destruct (traverse_tree_shaped ctv jsonData [] fileName ∅) as [Hpath Hshaped].
  split; [exact Hpath|]. intros bus Hbus.
  rewrite Forall_forall in Hshaped. destruct (Hshaped bus Hbus) as [Hsig Hsub].
  rewrite Forall_forall in Hsig. rewrite Forall_forall in Hsub. auto.
Qed.

Lemma parseMatlabJson_paths_witness :
  parseMatlabJson demo_json "demo" = Ok demo_dataset
  /\ BusNode.path (ParsedDataset.rootBus demo_dataset) = []
  /\ forall bus,
       bus ∈ ParsedDataset.rootBus demo_dataset
             :: attached (ParsedDataset.rootBus demo_dataset) ->
       (forall s, s ∈ BusNode.signals bus ->
          SignalData.path s = BusNode.path bus ++ [SignalData.name s]
          /\ SignalData.id s = join "." (SignalData.path s))
       /\ (forall sub, sub ∈ BusNode.subBuses bus ->
             exists rest, rest <> []
                          /\ BusNode.path sub = BusNode.path bus ++ rest).
Proof.
  split; [reflexivity|].
  exact (parseMatlabJson_paths demo_json "demo" demo_dataset eq_refl).
Defined.

(** ** Tree normalizer: where a signal's sequences come from *)

Lemma signal_of_copied ctv path key value s :
  signal_of ctv path key value = Some s -> copied_from ctv value s.
Proof.
  unfold signal_of, copied_from. destruct (isNumericArray (Some value)) eqn:Harr.
  - destruct (_ && _); [discriminate|]. intros [= <-]. left. auto.
  - destruct (_ && _ && _ && _) eqn:Hts; [|discriminate]. intros [= <-].
    apply andb_prop in Hts as [Hts Htime]. apply andb_prop in Hts as [_ Hdata].
    destruct (isNumericArray_inv _ Hdata) as [d Hd].
    destruct (isNumericArray_inv _ Htime) as [t Ht].
    rewrite Hd, Ht in *. right. split; [reflexivity|].
    exists d, t. simpl. auto 10.
Qed.

Lemma values_in_item (items : list json) (item value : json) :
  item ∈ items -> value ∈ item :: values_in item -> value ∈ values_in (JArr items).
Proof.
  intros Hitem Hvalue. simpl. apply list_elem_of_In, in_flat_map.
  exists item. split; apply list_elem_of_In; assumption.
Qed.

Lemma values_in_entry (props : list (string * json)) (entry : string * json)
    (value : json) :
  entry ∈ props -> value ∈ entry.2 :: values_in entry.2 ->
  value ∈ values_in (JObj props).
Proof.
  intros Hentry Hvalue. simpl. apply list_elem_of_In, in_flat_map.
  exists entry. split; apply list_elem_of_In; assumption.
Qed.

(** One key: the signals of the bus under construction are the ones it
    had, and ones that take their sequences from the key's value or from a
    value below it. *)
Lemma visit_copies ctv path key value (st : walk) s :
  traverse_copies ctv value ->
  (forall item, item ∈ array_items value -> traverse_copies ctv item) ->
  s ∈ all_signals (visit (traverse ctv) ctv path key value st).1 ->
  s ∈ all_signals st.1
  \/ exists v, v ∈ value :: values_in value /\ copied_from ctv v s.
Proof.
  intros Hvalue Hitems. unfold visit.
  pose proof (signal_of_copied ctv path key value) as Hcopied.
  unfold signal_of in Hcopied.
  destruct (isNumericArray (Some value)).
  { destruct (_ && _); [auto|]. cbn [fst].
    rewrite elem_of_all_signals_push. intros [Hs| ->]; [auto|].
    right. exists value. split; [apply list_elem_of_here|exact (Hcopied _ eq_refl)]. }
  destruct (_ && _ && _ && _).
  { cbn [fst]. rewrite elem_of_all_signals_push. intros [Hs| ->]; [auto|].
    right. exists value. split; [apply list_elem_of_here|exact (Hcopied _ eq_refl)]. }
  clear Hcopied.
  destruct (_ && _).
  { cbn [fst]. rewrite elem_of_all_signals_attach. intros [Hs|Hs]; [auto|].
    destruct (Hvalue _ _ _ _ Hs) as (v & Hv & Hcopy).
    right. exists v. split; [apply list_elem_of_further, Hv|exact Hcopy]. }
  destruct (_ && _ && _); [|auto].
  destruct value as [| | | |items|]; auto.
  revert s.
  apply (forEach_invariant
           (fun st' : walk => forall s, s ∈ all_signals st'.1 ->
              s ∈ all_signals st.1
              \/ exists v, v ∈ JArr items :: values_in (JArr items)
                           /\ copied_from ctv v s)); [|auto].
  intros item index st' Hin Hst' s. cbn [fst].
  rewrite elem_of_all_signals_attach. intros [Hs|Hs]; [auto|].
  destruct (Hitems item Hin _ _ _ _ Hs) as (v & Hv & Hcopy).
  right. exists v. split; [|exact Hcopy].
  apply list_elem_of_further, (values_in_item items item); [exact Hin|].
  apply list_elem_of_further, Hv.
Qed.

Lemma traverse_copies_all ctv (value : json) :
  traverse_copies ctv value
  /\ (forall item, item ∈ array_items value -> traverse_copies ctv item).
Proof.
  induction value as [|b|x|str|items IH|props IH] using json_ind;
    try (split; [intros path busName flat s Hs; simpl in Hs; inversion Hs
                |intros item Hin; simpl in Hin; inversion Hin]; fail).
  - rewrite Forall_forall in IH.
    split; [|intros item Hin; exact (proj1 (IH item Hin))].
    intros path busName flat. cbn [traverse].
    apply (forEach_invariant
             (fun st : walk => forall s, s ∈ all_signals st.1 ->
                exists v, v ∈ values_in (JArr items) /\ copied_from ctv v s)).
    + intros item index st Hin Hst s Hs. destruct (IH item Hin) as [Hitem Hsub].
      destruct (visit_copies _ _ _ _ _ _ Hitem Hsub Hs) as [Hold|(v & Hv & Hcopy)];
        [auto|].
      exists v. split; [|exact Hcopy]. apply (values_in_item items item); assumption.
    + intros s Hs. inversion Hs.
  - rewrite Forall_forall in IH. split; [|intros item Hin; inversion Hin].
    intros path busName flat. cbn [traverse].
    apply (fold_left_invariant
             (fun st : walk => forall s, s ∈ all_signals st.1 ->
                exists v, v ∈ values_in (JObj props) /\ copied_from ctv v s)).
    + intros entry st Hin Hst s Hs. destruct (IH entry Hin) as [Hentry Hsub].
      destruct (visit_copies _ _ _ _ _ _ Hentry Hsub Hs) as [Hold|(v & Hv & Hcopy)];
        [auto|].
      exists v. split; [|exact Hcopy]. apply (values_in_entry props entry); assumption.
    + intros s Hs. inversion Hs.
Qed.

Lemma copied_from_aligned ctv value s :
  copied_from ctv value s ->
  aligned ctv value
  <-> (forall time, SignalData.time s = Some time ->
                    length time = length (SignalData.data s)).
Proof.
  unfold aligned. intros [(Harr & Hdata & Htime)|(Harr & d & t & Hd & Ht & _ & _ & Hdata & Htime)];
    rewrite Harr, Hdata, Htime.
  - reflexivity.
  - split.
    + intros Hlen time [= <-]. exact (Hlen d t Hd Ht).
    + intros Hlen d' t' Hd' Ht'. assert (d' = d) by congruence.
      assert (t' = t) by congruence. subst. apply Hlen. reflexivity.
Qed.

(** C2, amended. In every dataset the normalizer returns, each signal,
    reached through the tree or through the flat record, has data that is
    not empty and, if its time is present, a time that is not empty, and it
    takes both sequences as they are from one value of the input: either
    that value is a numeric sequence, which is the data, and the time is the
    common time vector (the root's [time], [tout] or [t] sequence); or the
    value's own [data] and [time] sequences are the data and the time.  So
    a time that is present has the length of the data exactly when the
    input gives the two sequences the same length; the normalizer does not
    check it. *)
Theorem parseMatlabJson_signal_time (jsonData : json) (fileName : string)
    (ds : ParsedDataset.t) (s : SignalData.t) :
  parseMatlabJson jsonData fileName = Ok ds ->
  signal_in ds s ->
  ParsedDataset.commonTimeVector ds = detect_time jsonData
  /\ 1 <= length (SignalData.data s)
  /\ (forall time, SignalData.time s = Some time -> 1 <= length time)
  /\ exists value,
       value ∈ values_in jsonData
       /\ copied_from (ParsedDataset.commonTimeVector ds) value s
       /\ (aligned (ParsedDataset.commonTimeVector ds) value
           <-> forall time, SignalData.time s = Some time ->
                            length time = length (SignalData.data s)).
Proof.
  intros Hparse Hin.
  destruct (parseMatlabJson_ok _ _ _ Hparse) as (Hctv & _).
  destruct (signal_in_emitted _ _ _ _ Hparse Hin) as [Hdata _ Hsrc].
  split; [exact Hctv|]. split; [exact Hdata|]. split.
  { intros time Htime. destruct Hsrc as [Hcommon|(time' & Hown & Hlen)].
    - apply (detect_time_length jsonData). congruence.
    - congruence. }
  assert (Hds : ds = ParsedDataset.mk
                  (traverse (detect_time jsonData) jsonData [] fileName ∅).1
                  (traverse (detect_time jsonData) jsonData [] fileName ∅).2
                  (detect_time jsonData)).
  { unfold parseMatlabJson in Hparse.
    destruct jsonData; try discriminate; injection Hparse as <-; reflexivity. }
  rewrite Hctv. clear Hparse Hctv Hdata Hsrc.
  assert (Htree : s ∈ all_signals
                        (traverse (detect_time jsonData) jsonData [] fileName ∅).1).
  { rewrite Hds in Hin. destruct Hin as [Hin|[id Hid]]; [exact Hin|].
    cbn [ParsedDataset.flatSignals] in Hid.
    destruct (traverse_flat_from_tree _ _ _ _ _ _ _ Hid) as [Hempty|[Hs _]];
      [rewrite lookup_empty in Hempty; discriminate|exact Hs]. }
  destruct (proj1 (traverse_copies_all (detect_time jsonData) jsonData)
              [] fileName ∅ s Htree) as (value & Hvalue & Hcopy).
  exists value. split; [exact Hvalue|]. split; [exact Hcopy|].
  apply copied_from_aligned, Hcopy.
Qed.

Lemma parseMatlabJson_signal_time_witness :
  parseMatlabJson demo_json "demo" = Ok demo_dataset
  /\ signal_in demo_dataset
       (SignalData.mk "b.c" "c" ["b"; "c"] [4; 5; 6]%float (Some [0; 1; 2]%float)
          (Some (calculateStats [4; 5; 6]%float)))
  /\ ParsedDataset.commonTimeVector demo_dataset = detect_time demo_json
  /\ 1 <= length [4; 5; 6]%float
  /\ (forall time, Some [0; 1; 2]%float = Some time -> 1 <= length time)
  /\ exists value,
       value ∈ values_in demo_json
       /\ copied_from (ParsedDataset.commonTimeVector demo_dataset) value
            (SignalData.mk "b.c" "c" ["b"; "c"] [4; 5; 6]%float
               (Some [0; 1; 2]%float) (Some (calculateStats [4; 5; 6]%float)))
       /\ (aligned (ParsedDataset.commonTimeVector demo_dataset) value
           <-> forall time, Some [0; 1; 2]%float = Some time ->
                            length time = length [4; 5; 6]%float).
Proof.
  assert (Hin : signal_in demo_dataset
            (SignalData.mk "b.c" "c" ["b"; "c"] [4; 5; 6]%float
               (Some [0; 1; 2]%float) (Some (calculateStats [4; 5; 6]%float)))).
  { right. exists "b.c". reflexivity. }
  split; [reflexivity|]. split; [exact Hin|].
  exact (parseMatlabJson_signal_time demo_json "demo" demo_dataset _ eq_refl Hin).
Defined.

(** ** Zoom and cursors *)

Lemma findIndex_from_range {A : Type} (p : A -> bool) (arr : list A) (i : Z) :
  findIndex_from p arr i = (-1)%Z
  \/ (i <= findIndex_from p arr i < i + Z.of_nat (length arr))%Z.
Proof.
  revert i. induction arr as [|x arr IH]; intros i; simpl; [auto|].
  destruct (p x); [right; lia|].
  destruct (IH (i + 1)%Z) as [H|H]; [auto|right; lia].
Qed.

(** X6. A zoom always clears both ends of the selection, and either leaves
    the zoom window as it was or sets a window that lies inside the rows
    with its first index strictly before its last. *)
Theorem zoom_window (chartData : list Row) (st : ChartState.t) :
  ChartState.refAreaLeft (zoom chartData st) = None
  /\ ChartState.refAreaRight (zoom chartData st) = None
  /\ (ChartState.zoomRange (zoom chartData st) = ChartState.zoomRange st
      \/ exists r, ChartState.zoomRange (zoom chartData st) = Some r
                   /\ window_ok chartData r).
Proof.
  unfold zoom.
  destruct (ChartState.refAreaLeft st) as [l|], (ChartState.refAreaRight st) as [r|];
    try (simpl; auto; fail).
  destruct (PrimFloat.eqb l r); [simpl; auto|].
  cbv zeta.
  set (s := findIndex _ chartData). set (e := findIndex _ chartData).
  destruct (Z.ltb_spec (if Z.eqb s (-1) then 0%Z else s)
              (if Z.eqb e (-1) then (Z.of_nat (length chartData) - 1)%Z
               else Z.max 0 (e - 1))) as [Hlt|Hge]; [|simpl; auto].
  simpl. split; [reflexivity|]. split; [reflexivity|]. right.
  eexists. split; [reflexivity|]. unfold window_ok. simpl.
  pose proof (findIndex_from_range (fun d => PrimFloat.leb (Math_min [l; r]) (row_time d))
                chartData 0) as Hs.
  pose proof (findIndex_from_range (fun d => PrimFloat.ltb (Math_max [l; r]) (row_time d))
                chartData 0) as He.
  fold (findIndex (fun d => PrimFloat.leb (Math_min [l; r]) (row_time d)) chartData) in Hs.
  fold (findIndex (fun d => PrimFloat.ltb (Math_max [l; r]) (row_time d)) chartData) in He.
  fold s in Hs. fold e in He.
  destruct (Z.eqb_spec s (-1)), (Z.eqb_spec e (-1)); lia.
Qed.

(** X7. After zooming out the view does not count as zoomed, whatever the
    rows and the state before. *)
Theorem zoomOut_not_zoomed (chartData : list Row) (st : ChartState.t) :
  isZoomed chartData (zoomOut chartData st) = false.
Proof.
  unfold isZoomed, zoomOut.
  destruct (length chartData) as [|n]; [reflexivity|].
  cbn [Nat.ltb Nat.leb ChartState.zoomRange Nat.eqb ZoomRange.startIndex ZoomRange.endIndex].
  rewrite !Z.ltb_irrefl. reflexivity.
Qed.

(** X8. Clicks keep the cursors well-formed: no cursor is ever NaN, and the
    second cursor is never set while the first is not. *)
Theorem handleChartClick_cursors (isMeasureMode : bool) (data : option float)
    (cursors : Cursors) :
  cursors_ok cursors -> cursors_ok (handleChartClick isMeasureMode data cursors).
Proof.
  unfold handleChartClick. intros Hok.
  destruct isMeasureMode; [|exact Hok]. simpl.
  destruct data as [time|]; [|exact Hok].
  destruct (PrimFloat.is_nan time) eqn:Hnan; [exact Hok|].
  destruct cursors as [[c1|] [c2|]], Hok as (H1 & H2 & H3);
    repeat split; simpl in *; auto; congruence.
Qed.

Lemma handleChartClick_cursors_witness :
  cursors_ok (Some 1%float, None)
  /\ cursors_ok (handleChartClick true (Some 2%float) (Some 1%float, None)).
Proof.
  assert (Hok : cursors_ok (Some 1%float, None)).
  { split; [reflexivity|]. split; [exact I|]. intros Hset. contradiction Hset. reflexivity. }
  split; [exact Hok|].
  exact (handleChartClick_cursors true (Some 2%float) (Some 1%float, None) Hok).
Defined.

(** ** Chart slots *)

Lemma has_id_false id slot :
  has_id id slot = false <-> id ∉ SignalData.id <$> slot.
Proof.
  unfold has_id. induction slot as [|s slot IH]; simpl.
  - split; [intros _ H; inversion H|auto].
  - rewrite orb_false_iff, IH, not_elem_of_cons.
    destruct (String.eqb_spec (SignalData.id s) id); split; intros [? ?]; split;
      auto; congruence.
Qed.

Lemma NoDup_ids_snoc slot s :
  NoDup (SignalData.id <$> slot) -> has_id (SignalData.id s) slot = false ->
  NoDup (SignalData.id <$> (slot ++ [s])).
Proof.
  intros Hnodup Hfresh. apply has_id_false in Hfresh.
  rewrite fmap_app. apply NoDup_app. split; [exact Hnodup|]. split.
  - intros id Hin Hs. apply list_elem_of_singleton in Hs. congruence.
  - apply NoDup_singleton.
Qed.

Lemma NoDup_ids_filter (keep : SignalData.t -> bool) slot :
  NoDup (SignalData.id <$> slot) -> NoDup (SignalData.id <$> List.filter keep slot).
Proof.
  induction slot as [|s slot IH]; simpl; [auto|].
  rewrite NoDup_cons. intros [Hfresh Hnodup].
  destruct (keep s); simpl; [|auto].
  apply NoDup_cons. split; [|auto].
  intros Hin. apply Hfresh. apply list_elem_of_fmap in Hin as (s' & -> & Hin).
  apply list_elem_of_fmap. exists s'. split; [reflexivity|].
  apply list_elem_of_In, filter_In in Hin as [Hin _]. apply list_elem_of_In, Hin.
Qed.

Lemma array_get_ok (chartSlots : Slots) index :
  slots_ok chartSlots -> index < MAX_SLOTS ->
  exists slot, array_get chartSlots index = Some slot
               /\ chartSlots !! index = Some (Some slot)
               /\ NoDup (SignalData.id <$> slot).
Proof.
  intros [Hlen Hall] Hindex. rewrite <- Hlen in Hindex.
  destruct (lookup_lt_is_Some_2 _ _ Hindex) as [slot Hslot].
  rewrite Forall_forall in Hall.
  destruct (Hall slot (list_elem_of_lookup_2 _ _ _ Hslot)) as (signals & -> & Hnodup).
  exists signals. unfold array_get. rewrite Hslot. auto.
Qed.

Lemma array_set_ok (chartSlots : Slots) index slot :
  slots_ok chartSlots -> index < MAX_SLOTS -> NoDup (SignalData.id <$> slot) ->
  slots_ok (array_set chartSlots index slot).
Proof.
  intros [Hlen Hall] Hindex Hslot. unfold array_set.
  rewrite <- Hlen in Hindex. apply Nat.ltb_lt in Hindex as Hlt. rewrite Hlt.
  split; [rewrite length_insert; exact Hlen|].
  apply Forall_insert; [exact Hall|eauto].
Qed.

Lemma findIndex_empty_ok (slots : Slots) (i : nat) :
  Forall (fun slot => exists signals : list SignalData.t, slot = Some signals
                      /\ NoDup (SignalData.id <$> signals)) slots ->
  findIndex_empty slots i = Ok None
  \/ exists k, findIndex_empty slots i = Ok (Some (i + k)) /\ k < length slots.
Proof.
  intros Hall. revert i. induction Hall as [|slot slots (signals & -> & _) _ IH];
    intros i; simpl; [auto|].
  destruct (Nat.eqb (length signals) 0).
  - right. exists 0. split; [f_equal; f_equal; lia|lia].
  - destruct (IH (S i)) as [H|(k & H & Hk)]; [auto|].
    right. exists (S k). rewrite H. split; [f_equal; f_equal; lia|lia].
Qed.

Lemma empty_slots_ok : slots_ok empty_slots.
Proof.
  split; [reflexivity|]. unfold empty_slots. apply Forall_replicate.
  exists []. split; [reflexivity|constructor].
Qed.

Lemma demo_slots_ok : slots_ok demo_slots.
Proof.
  split; [reflexivity|].
  repeat (apply Forall_cons; split;
          [eexists; split; [reflexivity|apply (bool_decide_unpack _); reflexivity]|]).
  apply Forall_nil_2.
Qed.

Lemma slot_step_ok (chartSlots : Slots) (ev : slot_event) :
  slots_ok chartSlots -> event_in_range ev ->
  exists next, slot_step chartSlots ev = Ok next /\ slots_ok next.
Proof.
  intros Hok Hrange. destruct ev as [dataset index signalId|slotIndex signalId
                                    |slotIndex|signal|]; simpl in *.
  - unfold handleDrop. destruct (if String.eqb signalId "" then _ else _) as [s|];
      [|eauto].
    destruct (array_get_ok _ _ Hok (proj1 Hrange)) as (slot & -> & _ & Hnodup).
    destruct (has_id (SignalData.id s) slot) eqn:Hid; simpl; [eauto|].
    eexists. split; [reflexivity|].
    apply array_set_ok; [exact Hok|exact (proj1 Hrange)|].
    apply NoDup_ids_snoc; assumption.
  - unfold removeSignal.
    destruct (array_get_ok _ _ Hok Hrange) as (slot & -> & _ & Hnodup).
    eexists. split; [reflexivity|].
    apply array_set_ok; auto using NoDup_ids_filter.
  - eexists. split; [reflexivity|]. apply array_set_ok; auto. constructor.
  - unfold handleSelectSignal.
    destruct (findIndex_empty_ok chartSlots 0 (proj2 Hok)) as [->|(k & -> & Hk)].
    + assert (H0 : 0 < MAX_SLOTS) by (unfold MAX_SLOTS; lia).
      destruct (array_get_ok _ _ Hok H0) as (slot & -> & _ & Hnodup).
      destruct (has_id (SignalData.id signal) slot) eqn:Hid; simpl; [eauto|].
      eexists. split; [reflexivity|].
      apply array_set_ok; auto using NoDup_ids_snoc.
    + eexists. split; [reflexivity|].
      apply array_set_ok; auto.
      * destruct Hok as [Hlen _]. lia.
      * simpl. apply NoDup_singleton.
  - eexists. split; [reflexivity|]. apply empty_slots_ok.
Qed.

(** X9. Starting from the initial slots, any sequence of drops, removals,
    clearings, tree clicks and dataset loads that address slots below
    [MAX_SLOTS] runs without a throw, and leaves exactly [MAX_SLOTS] slots,
    each an array in which no two signals share an id. *)
Theorem slot_run_ok (evs : list slot_event) :
  Forall event_in_range evs ->
  exists chartSlots, slot_run empty_slots evs = Ok chartSlots /\ slots_ok chartSlots.
Proof.
  pose proof empty_slots_ok as Hinit.
  revert Hinit. generalize empty_slots as chartSlots.
  induction evs as [|ev evs IH]; intros chartSlots Hok Hevs; simpl; [eauto|].
  apply Forall_cons in Hevs as [Hev Hevs].
  destruct (slot_step_ok chartSlots ev Hok Hev) as (next & -> & Hnext).
  apply IH; assumption.
Qed.

Lemma slot_run_ok_witness :
  Forall event_in_range
    [OnSelect (leaf "rpm"); OnSelect (leaf "speed");
     OnDrop (Some demo_dataset) 0 "b.c"; OnDrop (Some demo_dataset) 0 "b.c";
     OnRemove 0 "rpm"; OnClear 1]
  /\ exists chartSlots,
       slot_run empty_slots
         [OnSelect (leaf "rpm"); OnSelect (leaf "speed");
          OnDrop (Some demo_dataset) 0 "b.c"; OnDrop (Some demo_dataset) 0 "b.c";
          OnRemove 0 "rpm"; OnClear 1] = Ok chartSlots
       /\ slots_ok chartSlots.
Proof.
  assert (Hevs : Forall event_in_range
            [OnSelect (leaf "rpm"); OnSelect (leaf "speed");
             OnDrop (Some demo_dataset) 0 "b.c"; OnDrop (Some demo_dataset) 0 "b.c";
             OnRemove 0 "rpm"; OnClear 1]).
  { assert (Hdrop : 0 < MAX_SLOTS /\ "b.c" ∉ inherited_names).
    { split; [unfold MAX_SLOTS; lia|apply (bool_decide_unpack _); reflexivity]. }
    repeat (apply Forall_cons; split; [first [exact I|exact Hdrop|simpl; unfold MAX_SLOTS; lia]|]).
    apply Forall_nil_2. }
  split; [exact Hevs|]. exact (slot_run_ok _ Hevs).
Defined.

Lemma array_get_set {A : Type} (arr : list (option A)) index (v : A) :
  array_get (array_set arr index v) index = Some v.
Proof.
  unfold array_get, array_set. destruct (Nat.ltb_spec index (length arr)) as [Hlt|Hge].
  - rewrite list_lookup_insert_eq by exact Hlt. reflexivity.
  - rewrite lookup_app_r by exact Hge.
    rewrite lookup_app_r by (rewrite length_replicate; lia).
    rewrite length_replicate, Nat.sub_diag. reflexivity.
Qed.

Lemma array_get_set_other {A : Type} (arr : list (option A)) index other (v : A) :
  index < length arr -> other <> index ->
  array_set arr index v !! other = arr !! other.
Proof.
  intros Hlt Hne. unfold array_set. apply Nat.ltb_lt in Hlt. rewrite Hlt.
  apply list_lookup_insert_ne. auto.
Qed.

(** X10. A click on a signal of the tree never throws on well-formed
    slots, and afterwards some slot shows a signal with the clicked id; every
    other slot is as before. *)
Theorem handleSelectSignal_shows (chartSlots : Slots) (signal : SignalData.t) :
  slots_ok chartSlots ->
  exists next index slot,
    handleSelectSignal chartSlots signal = Ok next
    /\ array_get next index = Some slot
    /\ SignalData.id signal ∈ SignalData.id <$> slot
    /\ forall other, other <> index -> next !! other = chartSlots !! other.
Proof.
  intros Hok. unfold handleSelectSignal.
  destruct (findIndex_empty_ok chartSlots 0 (proj2 Hok)) as [->|(k & -> & Hk)].
  - assert (H0 : 0 < MAX_SLOTS) by (unfold MAX_SLOTS; lia).
    destruct (array_get_ok _ _ Hok H0) as (slot & Hget & _ & Hnodup). rewrite Hget.
    destruct (has_id (SignalData.id signal) slot) eqn:Hid; simpl.
    + exists chartSlots, 0, slot. repeat split; auto.
      destruct (decide (SignalData.id signal ∈ SignalData.id <$> slot)) as [|Hnot]; [auto|].
      apply has_id_false in Hnot. congruence.
    + exists (array_set chartSlots 0 (slot ++ [signal])), 0, (slot ++ [signal]).
      split; [reflexivity|]. split; [apply array_get_set|]. split.
      * rewrite fmap_app. apply elem_of_app. right. simpl. apply list_elem_of_here.
      * intros other Hne. apply array_get_set_other; [|exact Hne].
        destruct Hok as [-> _]. exact H0.
  - exists (array_set chartSlots (0 + k) [signal]), (0 + k), [signal].
    split; [reflexivity|]. split; [apply array_get_set|]. split.
    + simpl. apply list_elem_of_here.
    + intros other Hne. apply array_get_set_other; [lia|exact Hne].
Qed.

Lemma handleSelectSignal_shows_witness :
  slots_ok demo_slots
  /\ exists next index slot,
       handleSelectSignal demo_slots (leaf "torque") = Ok next
       /\ array_get next index = Some slot
       /\ SignalData.id (leaf "torque") ∈ SignalData.id <$> slot
       /\ forall other, other <> index -> next !! other = demo_slots !! other.
Proof.
  split; [exact demo_slots_ok|].
  exact (handleSelectSignal_shows demo_slots (leaf "torque") demo_slots_ok).
Defined.

(** X11. Removing an id from a slot below [MAX_SLOTS] of well-formed slots
    never throws; the slot keeps exactly its signals with another id, and
    every other slot is as before. *)
Theorem removeSignal_removes (chartSlots : Slots) (slotIndex : nat)
    (signalId : string) :
  slots_ok chartSlots -> slotIndex < MAX_SLOTS ->
  exists next before after,
    removeSignal chartSlots slotIndex signalId = Ok next
    /\ array_get chartSlots slotIndex = Some before
    /\ array_get next slotIndex = Some after
    /\ (forall s, s ∈ after <-> s ∈ before /\ SignalData.id s <> signalId)
    /\ forall other, other <> slotIndex -> next !! other = chartSlots !! other.
Proof.
  intros Hok Hrange. unfold removeSignal.
  destruct (array_get_ok _ _ Hok Hrange) as (slot & Hget & _ & _). rewrite Hget.
  eexists. exists slot. eexists. split; [reflexivity|]. split; [reflexivity|].
  split; [apply array_get_set|]. split.
  - intros s. rewrite !list_elem_of_In, filter_In, negb_true_iff, String.eqb_neq.
    reflexivity.
  - intros other Hne. apply array_get_set_other; [|exact Hne].
    destruct Hok as [-> _]. exact Hrange.
Qed.

Lemma removeSignal_removes_witness :
  slots_ok demo_slots /\ 0 < MAX_SLOTS
  /\ exists next before after,
       removeSignal demo_slots 0 "rpm" = Ok next
       /\ array_get demo_slots 0 = Some before
       /\ array_get next 0 = Some after
       /\ (forall s, s ∈ after <-> s ∈ before /\ SignalData.id s <> "rpm")
       /\ forall other, other <> 0 -> next !! other = demo_slots !! other.
Proof.
  assert (Hrange : 0 < MAX_SLOTS) by (unfold MAX_SLOTS; lia).
  split; [exact demo_slots_ok|]. split; [exact Hrange|].
  exact (removeSignal_removes demo_slots 0 "rpm" demo_slots_ok Hrange).
Defined.

Lemma filter_ids_fresh signalId (slot : list SignalData.t) :
  signalId ∉ SignalData.id <$> slot ->
  List.filter (fun s => negb (String.eqb (SignalData.id s) signalId)) slot = slot.
Proof.
  induction slot as [|s slot IH]; simpl; [auto|].
  rewrite not_elem_of_cons. intros [Hne Hrest].
  apply not_eq_sym, String.eqb_neq in Hne. rewrite Hne. simpl. rewrite IH; auto.
Qed.

Lemma array_set_same {A : Type} (arr : list (option A)) index (v : A) :
  arr !! index = Some (Some v) -> array_set arr index v = arr.
Proof.
  intros Hget. unfold array_set.
  pose proof (lookup_lt_Some _ _ _ Hget) as Hlt. apply Nat.ltb_lt in Hlt.
  rewrite Hlt. apply list_insert_id, Hget.
Qed.

Lemma array_set_twice {A : Type} (arr : list (option A)) index (v w : A) :
  index < length arr ->
  array_set (array_set arr index v) index w = array_set arr index w.
Proof.
  intros Hlt. unfold array_set. apply Nat.ltb_lt in Hlt as Hltb. rewrite Hltb.
  rewrite length_insert, Hltb. apply list_insert_insert_eq.
Qed.

(** X12. Dropping an id of a normalized dataset on a slot that shows no
    signal with that id, then removing the id from the slot, gives back the
    slots as they were (whether or not the id names a signal of the
    dataset). *)
Theorem handleDrop_then_removeSignal (jsonData : json) (fileName : string)
    (ds : ParsedDataset.t) (chartSlots : Slots) (index : nat) (signalId : string)
    (slot : list SignalData.t) :
  parseMatlabJson jsonData fileName = Ok ds ->
  chartSlots !! index = Some (Some slot) ->
  signalId ∉ SignalData.id <$> slot ->
  signalId ∉ inherited_names ->
  exists dropped,
    handleDrop (Some ds) chartSlots index signalId = Ok dropped
    /\ removeSignal dropped index signalId = Ok chartSlots.
Proof.
  intros Hparse Hslot Hfresh _.
  assert (Hget : array_get chartSlots index = Some slot).
  { unfold array_get. rewrite Hslot. reflexivity. }
  assert (Hlt : index < length chartSlots) by (eapply lookup_lt_Some; eauto).
  assert (Hback : removeSignal chartSlots index signalId = Ok chartSlots).
  { unfold removeSignal. rewrite Hget, filter_ids_fresh by exact Hfresh.
    rewrite array_set_same by exact Hslot. reflexivity. }
  unfold handleDrop.
  destruct (String.eqb signalId ""); [eauto|]. simpl.
  destruct (ParsedDataset.flatSignals ds !! signalId) as [s|] eqn:Hflat; [|eauto].
  destruct (parseMatlabJson_walk _ _ _ Hparse) as (ctv & Hroot & Hflat').
  rewrite Hflat' in Hflat.
  destruct (traverse_flat_from_tree ctv jsonData [] fileName ∅ _ _ Hflat)
    as [Hempty|[_ Hid]]; [rewrite lookup_empty in Hempty; discriminate|].
  rewrite Hget, Hid. apply has_id_false in Hfresh as Hno. rewrite Hno. simpl.
  eexists. split; [reflexivity|].
  unfold removeSignal. rewrite array_get_set, array_set_twice by exact Hlt.
  rewrite List.filter_app, filter_ids_fresh by exact Hfresh. simpl.
  rewrite Hid, String.eqb_refl. simpl. rewrite app_nil_r.
  rewrite array_set_same by exact Hslot. reflexivity.
Qed.

Lemma handleDrop_then_removeSignal_witness :
  parseMatlabJson demo_json "demo" = Ok demo_dataset
  /\ demo_slots !! 0 = Some (Some [leaf "rpm"; leaf "speed"])
  /\ ("b.c" ∉ SignalData.id <$> [leaf "rpm"; leaf "speed"])
  /\ ("b.c" ∉ inherited_names)
  /\ exists dropped,
       handleDrop (Some demo_dataset) demo_slots 0 "b.c" = Ok dropped
       /\ removeSignal dropped 0 "b.c" = Ok demo_slots.
Proof.
  assert (Hfresh : "b.c" ∉ SignalData.id <$> [leaf "rpm"; leaf "speed"])
    by (apply (bool_decide_unpack _); reflexivity).
  assert (Hown : "b.c" ∉ inherited_names)
    by (apply (bool_decide_unpack _); reflexivity).
  split; [reflexivity|]. split; [reflexivity|].
  split; [exact Hfresh|]. split; [exact Hown|].
  exact (handleDrop_then_removeSignal demo_json "demo" demo_dataset demo_slots 0
           "b.c" [leaf "rpm"; leaf "speed"] eq_refl eq_refl Hfresh Hown).
Defined.

(** ** Sampling *)

Lemma filter_by_index_all {A : Type} (p : nat -> bool) (arr : list A) i :
  (forall k, p k = true) -> filter_by_index p arr i = arr.
Proof.
  intros Hp. revert i. induction arr as [|x arr IH]; intros i; simpl; [auto|].
  rewrite Hp, IH. reflexivity.
Qed.

Lemma filter_by_index_length {A : Type} (p : nat -> bool) (arr : list A) i :
  length (filter_by_index p arr i) = length (List.filter p (seq i (length arr))).
Proof.
  revert i. induction arr as [|x arr IH]; intros i; simpl; [auto|].
  destruct (p i); simpl; rewrite IH; reflexivity.
Qed.

Lemma stride_count (n step : nat) :
  0 < step ->
  length (List.filter (on_stride step) (seq 0 n)) * step <= n + step - 1.
Proof.
  intros Hstep.
  pose proof (for_loop_indices (fun _ => ∅) n step Hstep n 0
                (Nat.Div0.mod_0_l step) (Nat.le_sub_l n 0)) as Hloop.
  pose proof (for_loop_length (fun _ => ∅) n step Hstep n 0) as Hlen.
  rewrite Hloop, length_fmap, Nat.sub_0_r in Hlen. exact Hlen.
Qed.

(** X13. The samples sent for analysis are never more than 150, however
    long the signal. *)
Theorem sampledData_bounded (data : list float) :
  length (sampledData data) <= 150.
Proof.
  unfold sampledData. cbv zeta. rewrite filter_by_index_length.
  set (n := length data). unfold ceil_div.
  destruct (Nat.eqb_spec ((n + 150 - 1) / 150) 0) as [Hzero|Hpos].
  - assert (n = 0).
    { apply Nat.div_small_iff in Hzero; lia. }
    subst n. replace (length data) with 0 by auto. simpl. lia.
  - assert (Hstep : 0 < (n + 150 - 1) / 150) by lia.
    pose proof (stride_count n _ Hstep) as Hcount.
    erewrite filter_ext; [|intros i; unfold remainder_is_zero;
      destruct (Nat.eqb_spec ((n + 150 - 1) / 150) 0); [lia|reflexivity]].
    fold (on_stride ((n + 150 - 1) / 150)).
    revert Hcount. generalize (length (List.filter (on_stride ((n + 150 - 1) / 150))
                                         (seq 0 n))).
    intros rows Hrows.
    assert (n <= 150 * ((n + 150 - 1) / 150)).
    { pose proof (Nat.div_mod_eq (n + 150 - 1) 150).
      pose proof (Nat.mod_upper_bound (n + 150 - 1) 150). lia. }
    nia.
Qed.

(** X14. A signal of at most 150 samples is sent whole. *)
Theorem sampledData_small (data : list float) :
  length data <= 150 -> sampledData data = data.
Proof.
  intros Hlen. unfold sampledData. cbv zeta.
  destruct data as [|x data]; [reflexivity|].
  assert (Hstep : ceil_div (length (x :: data)) 150 = 1).
  { unfold ceil_div. simpl length in *.
    symmetry. apply Nat.div_unique with (r := length data); lia. }
  rewrite Hstep. apply filter_by_index_all. intros k.
  unfold remainder_is_zero. cbn [Nat.eqb]. rewrite Nat.mod_1_r. reflexivity.
Qed.

Lemma sampledData_small_witness :
  length tenths <= 150 /\ sampledData tenths = tenths.
Proof.
  assert (Hlen : length tenths <= 150) by (simpl; lia).
  split; [exact Hlen|]. exact (sampledData_small tenths Hlen).
Defined.

(** ** Statistics: NaN and attained extrema *)

Lemma is_nan_spec (x : float) :
  PrimFloat.is_nan x = true <-> Prim2SF x = S754_nan.
Proof.
  unfold PrimFloat.is_nan. rewrite FloatAxioms.eqb_spec. unfold SFeqb. split.
  - intros H. destruct (Prim2SF x) as [[]|[]| |[] m e] eqn:Hx; try reflexivity;
      try discriminate; exfalso;
      rewrite SFcompare_refl in H by discriminate; discriminate.
  - intros ->. reflexivity.
Qed.

Lemma add_nan (x y : float) :
  PrimFloat.is_nan x = true \/ PrimFloat.is_nan y = true ->
  PrimFloat.is_nan (x + y) = true.
Proof.
  rewrite !is_nan_spec, FloatAxioms.add_spec. unfold SF64add, SFadd.
  intros [-> | ->]; [reflexivity|]. destruct (Prim2SF x); reflexivity.
Qed.

Lemma sub_nan_r (x y : float) :
  PrimFloat.is_nan y = true -> PrimFloat.is_nan (x - y) = true.
Proof.
  rewrite !is_nan_spec, FloatAxioms.sub_spec. unfold SF64sub, SFsub.
  intros ->. destruct (Prim2SF x); reflexivity.
Qed.

Lemma mul_nan_l (x y : float) :
  PrimFloat.is_nan x = true -> PrimFloat.is_nan (x * y) = true.
Proof.
  rewrite !is_nan_spec, FloatAxioms.mul_spec. unfold SF64mul, SFmul. intros ->. reflexivity.
Qed.

Lemma div_nan_l (x y : float) :
  PrimFloat.is_nan x = true -> PrimFloat.is_nan (x / y) = true.
Proof.
  rewrite !is_nan_spec, FloatAxioms.div_spec. unfold SF64div, SFdiv. intros ->. reflexivity.
Qed.

Lemma sqrt_nan (x : float) :
  PrimFloat.is_nan x = true -> PrimFloat.is_nan (PrimFloat.sqrt x) = true.
Proof.
  rewrite !is_nan_spec, FloatAxioms.sqrt_spec. unfold SF64sqrt, SFsqrt. intros ->. reflexivity.
Qed.

Lemma fold_nan (step : float -> float -> float) (data : list float) :
  (forall a b, is_NaN a -> is_NaN (step a b)) ->
  (forall a b, is_NaN b -> is_NaN (step a b)) ->
  forall acc, is_NaN acc \/ Exists is_NaN data -> is_NaN (fold_left step data acc).
Proof.
  intros Hl Hr. induction data as [|x data IH]; intros acc Hnan; simpl.
  - destruct Hnan as [H|H]; [exact H|inversion H].
  - apply IH. destruct Hnan as [H|H]; [left; auto|].
    apply Exists_cons in H as [H|H]; [left; auto|right; exact H].
Qed.

Lemma Math_min_from_nan (coerced : list float) :
  Exists is_NaN coerced -> forall lowest, is_NaN (Math_min_from lowest coerced).
Proof.
  induction coerced as [|number rest IH]; intros Hnan lowest; [inversion Hnan|].
  simpl. destruct (PrimFloat.is_nan number) eqn:Hnumber; [reflexivity|].
  apply Exists_cons in Hnan as [H|H]; [unfold is_NaN in H; congruence|].
  destruct (_ && _); [auto|]. destruct (PrimFloat.ltb _ _); auto.
Qed.

Lemma Math_max_from_nan (coerced : list float) :
  Exists is_NaN coerced -> forall highest, is_NaN (Math_max_from highest coerced).
Proof.
  induction coerced as [|number rest IH]; intros Hnan highest; [inversion Hnan|].
  simpl. destruct (PrimFloat.is_nan number) eqn:Hnumber; [reflexivity|].
  apply Exists_cons in Hnan as [H|H]; [unfold is_NaN in H; congruence|].
  destruct (_ && _); [auto|]. destruct (PrimFloat.ltb _ _); auto.
Qed.

(** X15. One NaN among the samples makes all four statistics NaN. *)
Theorem calculateStats_nan (data : list float) :
  Exists is_NaN data ->
  is_NaN (Stats.min (calculateStats data))
  /\ is_NaN (Stats.max (calculateStats data))
  /\ is_NaN (Stats.mean (calculateStats data))
  /\ is_NaN (Stats.stdDev (calculateStats data)).
Proof.
  intros Hnan. destruct data as [|x data]; [inversion Hnan|].
  change (calculateStats (x :: data)) with (stats_of_samples (x :: data)).
  cbn [stats_of_samples Stats.min Stats.max Stats.mean Stats.stdDev].
  assert (Hmean : is_NaN (sum_of (x :: data) / Number_of_nat (length (x :: data)))).
  { apply div_nan_l. unfold sum_of.
    apply fold_nan; [intros; apply add_nan; auto ..|right; exact Hnan]. }
  repeat split.
  - apply Math_min_from_nan, Hnan.
  - apply Math_max_from_nan, Hnan.
  - exact Hmean.
  - apply sqrt_nan, div_nan_l. unfold squares_of.
    set (mean := (sum_of (x :: data) / Number_of_nat (length (x :: data)))%float) in *.
    assert (Hstep : forall a b, is_NaN (a + (b - mean) * (b - mean))).
    { intros a b. apply add_nan. right. apply mul_nan_l, sub_nan_r, Hmean. }
    simpl fold_left. apply fold_nan; [intros; apply Hstep ..|left; apply Hstep].
Qed.

Lemma calculateStats_nan_witness :
  Exists is_NaN [1; nan; 3]%float
  /\ is_NaN (Stats.min (calculateStats [1; nan; 3]%float))
  /\ is_NaN (Stats.max (calculateStats [1; nan; 3]%float))
  /\ is_NaN (Stats.mean (calculateStats [1; nan; 3]%float))
  /\ is_NaN (Stats.stdDev (calculateStats [1; nan; 3]%float)).
Proof.
  assert (Hnan : Exists is_NaN [1; nan; 3]%float).
  { apply Exists_cons_tl, Exists_cons_hd. reflexivity. }
  split; [exact Hnan|]. exact (calculateStats_nan [1; nan; 3]%float Hnan).
Defined.

Lemma Math_min_from_pick (coerced : list float) :
  Forall not_nan coerced ->
  forall lowest, Math_min_from lowest coerced ∈ lowest :: coerced.
Proof.
  induction 1 as [|number rest Hnumber _ IH]; intros lowest; simpl.
  - apply list_elem_of_here.
  - unfold not_nan in Hnumber. rewrite Hnumber.
    destruct (_ && _); [right; apply IH|].
    destruct (PrimFloat.ltb _ _); [right; apply IH|].
    specialize (IH lowest). apply elem_of_cons in IH as [->|IH].
    + left.
    + right. right. exact IH.
Qed.

Lemma Math_max_from_pick (coerced : list float) :
  Forall not_nan coerced ->
  forall highest, Math_max_from highest coerced ∈ highest :: coerced.
Proof.
  induction 1 as [|number rest Hnumber _ IH]; intros highest; simpl.
  - apply list_elem_of_here.
  - unfold not_nan in Hnumber. rewrite Hnumber.
    destruct (_ && _); [right; apply IH|].
    destruct (PrimFloat.ltb _ _); [right; apply IH|].
    specialize (IH highest). apply elem_of_cons in IH as [->|IH].
    + left.
    + right. right. exact IH.
Qed.

(** A number that is not below +Infinity is +Infinity. *)
Lemma not_below_infinity (x : float) :
  not_nan x -> PrimFloat.ltb x infinity = false -> x = infinity.
Proof.
  intros Hx Hlt. apply not_nan_spec in Hx. rewrite FloatAxioms.ltb_spec in Hlt.
  apply Prim2SF_inj.
  change (Prim2SF infinity) with (S754_infinity false) in *.
  unfold SFltb in Hlt.
  destruct (Prim2SF x) as [[]|[]| |[] m e]; simpl in Hlt;
    try discriminate; try reflexivity; congruence.
Qed.

Lemma not_above_neg_infinity (x : float) :
  not_nan x -> PrimFloat.ltb neg_infinity x = false -> x = neg_infinity.
Proof.
  intros Hx Hlt. apply not_nan_spec in Hx. rewrite FloatAxioms.ltb_spec in Hlt.
  apply Prim2SF_inj.
  change (Prim2SF neg_infinity) with (S754_infinity true) in *.
  unfold SFltb in Hlt.
  destruct (Prim2SF x) as [[]|[]| |[] m e]; simpl in Hlt;
    try discriminate; try reflexivity; congruence.
Qed.

(** X16. For samples that are not empty and hold no NaN, the minimum and
    the maximum reported are samples of the data. *)
Theorem calculateStats_extrema_attained (data : list float) :
  data <> [] -> Forall not_nan data ->
  Stats.min (calculateStats data) ∈ data
  /\ Stats.max (calculateStats data) ∈ data.
Proof.
  intros Hdata Hnan. destruct data as [|x data]; [congruence|].
  change (calculateStats (x :: data)) with (stats_of_samples (x :: data)).
  cbn [stats_of_samples Stats.min Stats.max]. unfold Math_min, Math_max.
  apply Forall_cons in Hnan as [Hx Hrest]. simpl.
  unfold not_nan in Hx. rewrite Hx. split.
  - change (is_pos_zero infinity) with false. rewrite andb_false_r.
    destruct (PrimFloat.ltb x infinity) eqn:Hlt.
    + apply Math_min_from_pick, Hrest.
    + rewrite <- (not_below_infinity x Hx Hlt). apply Math_min_from_pick, Hrest.
  - change (is_neg_zero neg_infinity) with false. rewrite andb_false_r.
    destruct (PrimFloat.ltb neg_infinity x) eqn:Hlt.
    + apply Math_max_from_pick, Hrest.
    + rewrite <- (not_above_neg_infinity x Hx Hlt). apply Math_max_from_pick, Hrest.
Qed.

Lemma calculateStats_extrema_attained_witness :
  tenths <> [] /\ Forall not_nan tenths
  /\ Stats.min (calculateStats tenths) ∈ tenths
  /\ Stats.max (calculateStats tenths) ∈ tenths.
Proof.
  assert (Hdata : tenths <> []) by discriminate.
  assert (Hnan : Forall not_nan tenths) by (repeat constructor).
  split; [exact Hdata|]. split; [exact Hnan|].
  exact (calculateStats_extrema_attained tenths Hdata Hnan).
Defined.
